(** * Interaction-timeline reconstruction and completeness scoring

    A shallow embedding of the reconstruction core of the RPA prompt
    generator:

    - [enhanced_murex_rpa_generator.py]: [_group_text_sequences],
      [extract_enhanced_interactions], [_create_time_windows];
    - [complete_video_processor.py]: [_find_interaction_gaps],
      [_assess_workflow_completeness];
    - [workflow_validator.py]: [validate_json_file].

    Modelling conventions.

    - A Python [str] is a [string]; one [ascii] stands for one code point
      below 256.  [isspace] and [lower] follow [str.isspace] and
      [str.lower] on that range.
    - Timestamps, durations and thresholds are Python numbers (JSON
      integers or finite floats); they are modelled as rationals [Q].
      Comparisons are exact; subtraction is the exact rational one,
      except in section [MachineSubtraction], which leaves the rounding
      of the float subtraction open.
    - A Python [int] ([len], scores) is a [Z].
    - A dictionary read with [.get(key, default)] is a record of
      [option] fields, [None] meaning that the key is absent.
    - [list.sort(key=...)] and [sorted(..., key=...)] are stable
      ascending sorts; they are modelled by a stable insertion sort. *)

From Stdlib Require Import String Ascii List Bool Arith ZArith QArith Lia.
From Stdlib Require Import Sorting.Sorted Sorting.Permutation.
From Stdlib Require Import DecimalString Qabs.
Import ListNotations.

Set Warnings "-register-all".
Local Close Scope Q_scope.
Local Open Scope string_scope.
Local Open Scope list_scope.

(** ** Python strings *)

Module PyStr.

(** [str.isspace] for a single code point below 256. *)
Definition isspace (c : ascii) : bool :=
  let n := nat_of_ascii c in
  ((9 <=? n)%nat && (n <=? 13)%nat) || ((28 <=? n)%nat && (n <=? 32)%nat)
  || (n =? 133)%nat || (n =? 160)%nat.

Definition is_empty (s : string) : bool :=
  match s with EmptyString => true | String _ _ => false end.

(** Truth value of a string: non-empty. *)
Definition truthy (s : string) : bool := negb (is_empty s).

Fixpoint lstrip (s : string) : string :=
  match s with
  | EmptyString => EmptyString
  | String c s' => if isspace c then lstrip s' else s
  end.

Fixpoint rstrip (s : string) : string :=
  match s with
  | EmptyString => EmptyString
  | String c s' =>
      let r := rstrip s' in
      if isspace c && is_empty r then EmptyString else String c r
  end.

(** [s.strip()] *)
Definition strip (s : string) : string := rstrip (lstrip s).

(** [s[:-1]] *)
Fixpoint drop_last (s : string) : string :=
  match s with
  | EmptyString => EmptyString
  | String c EmptyString => EmptyString
  | String c s' => String c (drop_last s')
  end.

(** [len(s)] *)
Definition len (s : string) : Z := Z.of_nat (String.length s).

(** [str.lower] for a single code point below 256: the ASCII capitals
    and the Latin-1 capitals (0xC0..0xDE except the multiplication
    sign 0xD7) move up by 32. *)
Definition lower_char (c : ascii) : ascii :=
  let n := nat_of_ascii c in
  if ((65 <=? n)%nat && (n <=? 90)%nat)
     || ((192 <=? n)%nat && (n <=? 222)%nat && negb (n =? 215)%nat)
  then ascii_of_nat (n + 32) else c.

Fixpoint lower (s : string) : string :=
  match s with
  | EmptyString => EmptyString
  | String c s' => String (lower_char c) (lower s')
  end.

(** [sub in s]: substring test. *)
Fixpoint contains (sub s : string) : bool :=
  String.prefix sub s ||
  match s with
  | EmptyString => false
  | String _ s' => contains sub s'
  end.

(** [key in [k1, k2, ...]] *)
Definition in_list (key : string) (l : list string) : bool :=
  existsb (String.eqb key) l.

End PyStr.

(** ** JSON values as Python sees them after [json.load] *)

Inductive json : Type :=
| JNull
| JBool (b : bool)
| JNum (q : Q)
| JStr (s : string)
| JArr (l : list json)
| JObj (m : list (string * json)).

(** Truth value of a loaded JSON value ([None], [False], zero, and empty
    strings, lists and dictionaries are falsy). *)
Definition truthy (v : json) : bool :=
  match v with
  | JNull => false
  | JBool b => b
  | JNum q => negb (Qeq_bool q 0)
  | JStr s => PyStr.truthy s
  | JArr l => match l with [] => false | _ :: _ => true end
  | JObj m => match m with [] => false | _ :: _ => true end
  end.

(** Truth value of [d.get(key)]: an absent key gives [None]. *)
Definition truthy_get (v : option json) : bool :=
  match v with None => false | Some v => truthy v end.

(** [d.get(key, default)] on a typed field. *)
Definition get_default {A : Type} (v : option A) (default : A) : A :=
  match v with Some a => a | None => default end.

(** [d.get(key) == s] for a string-typed field. *)
Definition get_eq (v : option string) (s : string) : bool :=
  match v with Some a => String.eqb a s | None => false end.

(** Python [a > b] and [a <= b] on numbers. *)
Definition Qgtb (a b : Q) : bool := negb (Qle_bool a b).
Definition Qleb (a b : Q) : bool := Qle_bool a b.

(** ** Text-sequence grouper ([enhanced_murex_rpa_generator.py]) *)

(** A keyboard event of the event log. *)
Record KeyEvent : Type := mkKeyEvent {
  ev_type : option string;
  ev_key_name : option string;
  ev_is_character : option json;
  ev_timestamp : option Q
}.

(** One entry of the list returned by [_group_text_sequences]:
    [{'timestamp': .., 'text': .., 'end_action': ..}].  The timestamp is
    [sequence_start], which is [None] until a character is typed. *)
Record TextSequence : Type := mkSeq {
  seq_timestamp : option Q;
  seq_text : string;
  seq_end_action : string
}.

(** The three local variables of the loop. *)
Record GroupState : Type := mkGroupState {
  sequences : list TextSequence;
  current_text : string;
  sequence_start : option Q
}.

Definition group_init : GroupState := mkGroupState [] "" None.

(** What a terminator ([Return]/[Enter] or [Tab]) does to the state. *)
Definition terminate (end_action : string) (st : GroupState) : GroupState :=
  {| sequences :=
       if PyStr.truthy (PyStr.strip (current_text st))
       then sequences st ++
            [mkSeq (sequence_start st) (current_text st) end_action]
       else sequences st;
     current_text := "";
     sequence_start := None |}.

(** Body of the [for event in keyboard_events] loop. *)
Definition group_step (st : GroupState) (event : KeyEvent) : GroupState :=
  if get_eq (ev_type event) "key_press" && truthy_get (ev_is_character event)
  then
    let key := get_default (ev_key_name event) "" in
    let timestamp := get_default (ev_timestamp event) 0%Q in
    if PyStr.in_list key ["Return"; "Enter"] then terminate "enter" st
    else if String.eqb key "Tab" then terminate "tab" st
    else if PyStr.in_list key ["Delete"; "BackSpace"] then
      if PyStr.truthy (current_text st)
      then {| sequences := sequences st;
              current_text := PyStr.drop_last (current_text st);
              sequence_start := sequence_start st |}
      else {| sequences := sequences st ++ [mkSeq (Some timestamp) "" "delete"];
              current_text := current_text st;
              sequence_start := sequence_start st |}
    else if PyStr.truthy key && (String.length key =? 1)%nat then
      {| sequences := sequences st;
         current_text := current_text st ++ key;
         sequence_start :=
           if negb (PyStr.truthy (current_text st))
           then Some timestamp else sequence_start st |}
    else st
  else st.

(** State of the loop after a stream of events. *)
Definition group_run (keyboard_events : list KeyEvent) : GroupState :=
  fold_left group_step keyboard_events group_init.

(** The "handle remaining text" epilogue. *)
Definition group_finish (st : GroupState) : list TextSequence :=
  if PyStr.truthy (PyStr.strip (current_text st))
  then sequences st ++ [mkSeq (sequence_start st) (current_text st) "incomplete"]
  else sequences st.

Definition _group_text_sequences (keyboard_events : list KeyEvent)
  : list TextSequence :=
  group_finish (group_run keyboard_events).

(** A character-flagged key press, as the macOS recorder logs it. *)
Definition key_press (key : string) (t : Q) : KeyEvent :=
  mkKeyEvent (Some "key_press") (Some key) (Some (JBool true)) (Some t).

(** A key press whose [is_character] flag is [false]. *)
Definition plain_press (key : string) (t : Q) : KeyEvent :=
  mkKeyEvent (Some "key_press") (Some key) (Some (JBool false)) (Some t).

(** ** Stable sort by a numeric key *)

Section StableSort.

Context {A : Type} (key : A -> Q).

(** [x] goes in front of the first element whose key is not below its
    own, hence behind every element with a smaller key and in front of
    the elements with an equal key that are already there. *)
Fixpoint insert_by (x : A) (l : list A) : list A :=
  match l with
  | [] => [x]
  | y :: l' => if Qleb (key x) (key y) then x :: l else y :: insert_by x l'
  end.

(** [sorted(l, key=key)]: ascending, equal keys keep their input
    order. *)
Fixpoint sorted_by (l : list A) : list A :=
  match l with
  | [] => []
  | x :: l' => insert_by x (sorted_by l')
  end.

End StableSort.

(** ** Interaction extractor ([enhanced_murex_rpa_generator.py]) *)

(** The [UIInteraction] dataclass. *)
Record UIInteraction : Type := mkUIInteraction {
  timestamp : Q;
  action_type : string;
  description : string;
  ui_context : option string;
  coordinates : option (Z * Z);
  text_content : option string;
  confidence : Q
}.

(** [event['position']] *)
Record Position : Type := mkPosition {
  pos_x : option Z;
  pos_y : option Z
}.

(** A mouse event of the event log. *)
Record MouseEvent : Type := mkMouseEvent {
  me_type : option string;
  me_button : option string;
  me_position : option Position;
  me_timestamp : option Q
}.

(** An application switch of the event log. *)
Record AppSwitch : Type := mkAppSwitch {
  sw_timestamp : option Q;
  sw_from_app : option string;
  sw_to_app : option string
}.

(** The loaded event log; a missing top-level key is [None]. *)
Record EventLog : Type := mkEventLog {
  mouse_interactions : option (list MouseEvent);
  keyboard_events : option (list KeyEvent);
  app_switches : option (list AppSwitch)
}.

(** How an f-string prints [d.get(key)]: the text, or [None]. *)
Definition fmt_get (v : option string) : string :=
  match v with Some s => s | None => "None" end.

(** The [UIInteraction] built for one left mouse press. *)
Definition click_of (event : MouseEvent) : UIInteraction :=
  let position := get_default (me_position event) (mkPosition None None) in
  {| timestamp := get_default (me_timestamp event) 0%Q;
     action_type := "click";
     description := "Click at screen location";
     ui_context := None;
     coordinates := Some (get_default (pos_x position) 0%Z,
                          get_default (pos_y position) 0%Z);
     text_content := None;
     confidence := 0%Q |}.

Definition is_left_press (event : MouseEvent) : bool :=
  get_eq (me_type event) "mouse_press" && get_eq (me_button event) "left".

(** The [UIInteraction] built for one text sequence.  [seq['timestamp']]
    is [sequence_start]; it is never [None] on a sequence with text (see
    [group_timestamps]), so the default below is never used. *)
Definition type_of (seq : TextSequence) : UIInteraction :=
  {| timestamp := get_default (seq_timestamp seq) 0%Q;
     action_type := "type";
     description := "Type '" ++ seq_text seq ++ "'";
     ui_context := Some (seq_end_action seq);
     coordinates := None;
     text_content := Some (seq_text seq);
     confidence := 0%Q |}.

(** The [UIInteraction] built for one application switch. *)
Definition navigate_of (switch : AppSwitch) : UIInteraction :=
  {| timestamp := get_default (sw_timestamp switch) 0%Q;
     action_type := "navigate";
     description := "Switch from " ++ fmt_get (sw_from_app switch)
                    ++ " to " ++ fmt_get (sw_to_app switch);
     ui_context := Some ("app_switch:" ++ fmt_get (sw_to_app switch))%string;
     coordinates := None;
     text_content := None;
     confidence := 0%Q |}.

(** [clicks]: the left presses, in log order. *)
Definition clicks_of (data : EventLog) : list UIInteraction :=
  map click_of (filter is_left_press (get_default (mouse_interactions data) [])).

(** The [type] interactions: the sequences with text, in grouper order. *)
Definition types_of (data : EventLog) : list UIInteraction :=
  map type_of
    (filter (fun seq => PyStr.truthy (PyStr.strip (seq_text seq)))
       (_group_text_sequences (get_default (keyboard_events data) []))).

(** The [navigate] interactions, in log order. *)
Definition navigates_of (data : EventLog) : list UIInteraction :=
  map navigate_of (get_default (app_switches data) []).

(** [interactions] just before the sort: the typed sequences are
    appended first, then [clicks], then the application switches. *)
Definition unsorted_interactions (data : EventLog) : list UIInteraction :=
  types_of data ++ clicks_of data ++ navigates_of data.

Definition extract_enhanced_interactions (data : EventLog)
  : list UIInteraction :=
  sorted_by timestamp (unsorted_interactions data).

(** ** Time windows ([enhanced_murex_rpa_generator.py]) *)

(** [{'start': .., 'end': .., 'interactions': [..]}] *)
Record TimeWindow : Type := mkWindow {
  win_start : Q;
  win_end : Q;
  win_interactions : list UIInteraction
}.

(** Body of the [for interaction in interactions[1:]] loop; the state is
    [(windows, current_window)]. *)
Definition window_step (window_size : Q) (st : list TimeWindow * TimeWindow)
  (interaction : UIInteraction) : list TimeWindow * TimeWindow :=
  let (windows, current_window) := st in
  if Qleb (timestamp interaction - win_end current_window)%Q window_size
  then (windows,
        {| win_start := win_start current_window;
           win_end := timestamp interaction;
           win_interactions := win_interactions current_window ++ [interaction] |})
  else (windows ++ [current_window],
        {| win_start := timestamp interaction;
           win_end := timestamp interaction;
           win_interactions := [interaction] |}).

Definition _create_time_windows (interactions : list UIInteraction)
  (window_size : Q) : list TimeWindow :=
  match interactions with
  | [] => []
  | first :: rest =>
      let (windows, current_window) :=
        fold_left (window_step window_size) rest
          ([], {| win_start := timestamp first;
                  win_end := timestamp first;
                  win_interactions := [first] |}) in
      windows ++ [current_window]
  end.

(** ** Gap analyzer ([complete_video_processor.py]) *)

(** [{'start': .., 'end': .., 'duration': ..}] *)
Record Gap : Type := mkGap {
  gap_start : Q;
  gap_end : Q;
  gap_duration : Q
}.

Definition _find_interaction_gaps (interactions : list UIInteraction)
  (session_duration gap_threshold : Q) : list Gap :=
  match interactions with
  | [] => [mkGap 0 session_duration session_duration]
  | _ :: _ =>
      let sorted_interactions := sorted_by timestamp interactions in
      (* sorted_interactions[i].timestamp; every index used is in range *)
      let at_ (i : nat) : Q := nth i (map timestamp sorted_interactions) 0%Q in
      let n := length sorted_interactions in
      let first_timestamp := at_ 0%nat in
      let leading :=
        if Qgtb first_timestamp gap_threshold
        then [mkGap 0 first_timestamp first_timestamp] else [] in
      let between :=
        flat_map
          (fun i =>
             let current_time := at_ i in
             let next_time := at_ (i + 1)%nat in
             let gap_duration := (next_time - current_time)%Q in
             if Qgtb gap_duration gap_threshold
             then [mkGap current_time next_time gap_duration] else [])
          (seq 0 (n - 1)) in
      let last_timestamp := at_ (n - 1)%nat in
      let trailing :=
        if Qgtb (session_duration - last_timestamp)%Q gap_threshold
        then [mkGap last_timestamp session_duration
                (session_duration - last_timestamp)%Q]
        else [] in
      leading ++ between ++ trailing
  end.

(** The default of the [gap_threshold] parameter. *)
Definition default_gap_threshold : Q := 5%Q.

(** ** Completeness scorer ([complete_video_processor.py]) *)

Module Scorer.

(** The dictionary returned by [_assess_workflow_completeness]. *)
Record Completeness : Type := mkCompleteness {
  score : Z;
  has_login : bool;
  has_completion : bool;
  adequate_length : bool;
  has_murex_patterns : bool;
  murex_pattern_count : Z;
  has_structured_format : bool;
  command_length : Z;
  expected_min_length : Z
}.

Definition login_words : list string :=
  ["login"; "username"; "password"; "authenticate"].

Definition completion_words : list string :=
  ["complete"; "finish"; "close"; "final"; "result"; "summary"; "end"; "done"].

Definition murex_patterns : list string :=
  ["press spacebar"; "input field and type"; "dropdown icon"; "three dots";
   "double-click"; "top bar"; "ctrl+f"; "search bar and press enter"].

(** [any(word in text for word in words)] *)
Definition any_in (words : list string) (text : string) : bool :=
  existsb (fun word => PyStr.contains word text) words.

(** [sum(1 for pattern in patterns if pattern in text)] *)
Definition count_in (patterns : list string) (text : string) : Z :=
  Z.of_nat (length (filter (fun pattern => PyStr.contains pattern text) patterns)).

Definition login_of (rpa_commands : string) : bool :=
  any_in login_words (PyStr.lower rpa_commands).

Definition completion_of (rpa_commands : string) : bool :=
  any_in completion_words (PyStr.lower rpa_commands).

Definition pattern_count_of (rpa_commands : string) : Z :=
  count_in murex_patterns (PyStr.lower rpa_commands).

Definition murex_patterns_of (rpa_commands : string) : bool :=
  (3 <=? pattern_count_of rpa_commands)%Z.

Definition has_numbered_steps (rpa_commands : string) : bool :=
  PyStr.contains "1." rpa_commands && PyStr.contains "2." rpa_commands.

Definition has_descriptive_headers (rpa_commands : string) : bool :=
  PyStr.contains "**" rpa_commands.

Definition min_length_of (interactions : list UIInteraction) : Z :=
  Z.max 400 (Z.of_nat (length interactions) * 25).

Definition adequate_length_of (rpa_commands : string)
  (interactions : list UIInteraction) : bool :=
  (min_length_of interactions <=? PyStr.len rpa_commands)%Z.

(** [score += w] under [if b]. *)
Definition add_if (b : bool) (w : Z) (score : Z) : Z :=
  if b then (score + w)%Z else score.

Definition _assess_workflow_completeness (rpa_commands : string)
  (session_duration : Q) (interactions : list UIInteraction) : Completeness :=
  let has_login := login_of rpa_commands in
  let has_completion := completion_of rpa_commands in
  let murex_pattern_count := pattern_count_of rpa_commands in
  let has_murex_patterns := murex_patterns_of rpa_commands in
  let has_numbered_steps := has_numbered_steps rpa_commands in
  let has_descriptive_headers := has_descriptive_headers rpa_commands in
  let expected_min_length := min_length_of interactions in
  let adequate_length := adequate_length_of rpa_commands interactions in
  let score :=
    add_if has_descriptive_headers 1
      (add_if has_numbered_steps 1
         (add_if has_murex_patterns 2
            (add_if adequate_length 2
               (add_if has_completion 2
                  (add_if has_login 2 0%Z))))) in
  {| score := score;
     has_login := has_login;
     has_completion := has_completion;
     adequate_length := adequate_length;
     has_murex_patterns := has_murex_patterns;
     murex_pattern_count := murex_pattern_count;
     has_structured_format := has_numbered_steps && has_descriptive_headers;
     command_length := PyStr.len rpa_commands;
     expected_min_length := expected_min_length |}.

End Scorer.

(** ** Validator ([workflow_validator.py]) *)

Module Validator.

(** The exceptions the checks can run into on a loaded JSON value. *)
Inductive exn : Type := TypeError | AttributeError | OverflowError.

(** A computation that returns or raises. *)
Inductive result (A : Type) : Type :=
| Ok (a : A)
| Raise (e : exn).
Arguments Ok {A} a.
Arguments Raise {A} e.

Definition bind {A B : Type} (c : result A) (k : A -> result B) : result B :=
  match c with Ok a => k a | Raise e => Raise e end.

Notation "'let*' x ':=' c 'in' k" := (bind c (fun x => k))
  (at level 10, x name, c at level 100, k at level 200).

(** The message of a result: the text of the source, with the values
    its f-string formats kept as arguments. *)
Inductive Message : Type :=
| JsonFileNotFound (json_path : string)
| InvalidJsonFormat
| MissingRequiredKeys (missing_keys : list string)
| NoInteractionsFound
| VeryFewMouseInteractions (mouse_count : Z)
| InteractionsFound (mouse_count keyboard_count : Z)
| NoSessionDurationInfo
| LongSessionDuration (duration : Q).

(** The [ValidationResult] dataclass. *)
Record ValidationResult : Type := mkResult {
  is_valid : bool;
  message : Message;
  severity : string;
  suggestion : option string
}.

(** What [json_path] leads to: no file, a file that [json.load] rejects
    with [JSONDecodeError], or a loaded value. *)
Inductive FileState : Type :=
| Missing
| Unparsable
| Parsed (data : json).

(** First binding of [key] in a dictionary. *)
Fixpoint lookup (key : string) (m : list (string * json)) : option json :=
  match m with
  | [] => None
  | (k, v) :: m' => if String.eqb key k then Some v else lookup key m'
  end.

(** [key not in data] *)
Definition not_in (key : string) (data : json) : result bool :=
  match data with
  | JObj m => Ok (match lookup key m with None => true | Some _ => false end)
  | JArr l =>
      Ok (negb (existsb
                  (fun v => match v with JStr s => String.eqb s key | _ => false end)
                  l))
  | JStr s => Ok (negb (PyStr.contains key s))
  | JNull | JBool _ | JNum _ => Raise TypeError
  end.

(** [data.get(key, default)]: only a dictionary has [get]. *)
Definition get (data : json) (key : string) (default : json) : result json :=
  match data with
  | JObj m => Ok (get_default (lookup key m) default)
  | _ => Raise AttributeError
  end.

(** [len(v)] *)
Definition len (v : json) : result Z :=
  match v with
  | JStr s => Ok (PyStr.len s)
  | JArr l => Ok (Z.of_nat (length l))
  | JObj m => Ok (Z.of_nat (length m))
  | JNull | JBool _ | JNum _ => Raise TypeError
  end.

(** [v == 0]; [False == 0] holds in Python. *)
Definition eq_zero (v : json) : bool :=
  match v with
  | JNum q => Qeq_bool q 0
  | JBool b => negb b
  | _ => false
  end.

(** [v > n] for a number [n]; ordering a non-number against a number
    raises. *)
Definition gt_num (v : json) (n : Q) : result bool :=
  match v with
  | JNum q => Ok (Qgtb q n)
  | JBool b => Ok (Qgtb (if b then 1 else 0)%Q n)
  | _ => Raise TypeError
  end.

(** [v] as the number [{v:.1f}] formats; only reached after [v > 600]. *)
Definition as_num (v : json) : Q :=
  match v with
  | JNum q => q
  | JBool b => (if b then 1 else 0)%Q
  | _ => 0%Q
  end.

(** The first integer that does not convert to a float: halfway between
    the largest float, [2^1024 - 2^971], and [2^1024].  Every finite
    float is below it, so a loaded number at or above it is a Python
    [int]. *)
Definition float_limit : Z := (2 ^ 1024 - 2 ^ 970)%Z.

(** Converting [v] to a float raises [OverflowError]; this is what
    [{v:.1f}] and [v - x] with a float [x] do to such an [int]. *)
Definition overflows (v : json) : bool :=
  match v with
  | JNum q => Qleb (inject_Z float_limit) q
  | _ => false
  end.

Definition required_keys : list string :=
  ["mouse_interactions"; "keyboard_events"].

(** [[key for key in keys if key not in data]] *)
Fixpoint missing_of (keys : list string) (data : json) : result (list string) :=
  match keys with
  | [] => Ok []
  | key :: keys' =>
      let* absent := not_in key data in
      let* rest := missing_of keys' data in
      Ok (if absent then key :: rest else rest)
  end.

Definition missing_keys_result (missing_keys : list string)
  : list ValidationResult :=
  match missing_keys with
  | [] => []
  | _ :: _ =>
      [mkResult false (MissingRequiredKeys missing_keys) "error"
         (Some "Ensure the interaction recording captured all required data")]
  end.

Definition count_result (mouse_count keyboard_count : Z) : ValidationResult :=
  if (mouse_count =? 0)%Z && (keyboard_count =? 0)%Z then
    mkResult false NoInteractionsFound "error"
      (Some "Re-record the workflow with user interactions")
  else if (mouse_count <? 3)%Z then
    mkResult true (VeryFewMouseInteractions mouse_count) "warning"
      (Some "Workflow might be too simple or recording may be incomplete")
  else
    mkResult true (InteractionsFound mouse_count keyboard_count) "info" None.

Definition duration_result (duration : json) : result (list ValidationResult) :=
  if eq_zero duration then
    Ok [mkResult true NoSessionDurationInfo "warning"
          (Some "Session duration helps with timing analysis")]
  else
    let* long := gt_num duration 600%Q in
    if long : bool then
      if overflows duration then Raise OverflowError
      else
        Ok [mkResult true (LongSessionDuration (as_num duration)) "warning"
              (Some "Long workflows may be complex to process and generate lengthy commands")]
    else Ok [].

(** The checks on the loaded value, from [# Validate JSON structure]
    on. *)
Definition validate_json_data (data : json) : result (list ValidationResult) :=
  let* missing_keys := missing_of required_keys data in
  let* mouse_interactions := get data "mouse_interactions" (JArr []) in
  let* mouse_count := len mouse_interactions in
  let* keyboard_events := get data "keyboard_events" (JArr []) in
  let* keyboard_count := len keyboard_events in
  let* session_info := get data "session_info" (JObj []) in
  let* duration := get session_info "duration" (JNum 0) in
  let* duration_results := duration_result duration in
  Ok (missing_keys_result missing_keys
      ++ [count_result mouse_count keyboard_count]
      ++ duration_results).

Definition validate_json_file (file : FileState) (json_path : string)
  : result (list ValidationResult) :=
  match file with
  | Missing =>
      Ok [mkResult false (JsonFileNotFound json_path) "error"
            (Some "Check the file path and ensure the interaction JSON file exists")]
  | Unparsable =>
      Ok [mkResult false InvalidJsonFormat "error"
            (Some "Check the JSON file for syntax errors and ensure it's properly formatted")]
  | Parsed data => validate_json_data data
  end.

(** The object has no binding for [key]. *)
Definition lacks (key : string) (m : list (string * json)) : Prop :=
  lookup key m = None.

(** The logs on which the duration check returns: [session_info], when
    present, is an object whose [duration], when present, is a boolean
    or a number that converts to a float (any float, any integer below
    [float_limit]).  The recorder writes a float. *)
Definition session_info_shaped (m : list (string * json)) : Prop :=
  match lookup "session_info" m with
  | None => True
  | Some (JObj info) =>
      match lookup "duration" info with
      | None => True
      | Some (JNum q) => (q < inject_Z float_limit)%Q
      | Some (JBool _) => True
      | Some _ => False
      end
  | Some _ => False
  end.

End Validator.

(** ** The other checks of the validator ([workflow_validator.py]) *)

Module Checks.
Import Validator.

(** What a check can run into under [validate_time_synchronization]'s
    [except Exception]. *)
Inductive error : Type :=
| Exn (e : exn)
| FileNotFoundError
| JSONDecodeError.

(** The messages of all four checks; those of [validate_json_file] are
    carried over. *)
Inductive Notice : Type :=
| OfJsonCheck (m : Message)
| VideoFileNotFound (video_path : string)
| VideoFileTooLarge (size_mb : Q)
| VideoFileLarge (size_mb : Q)
| VideoFileSizeOK (size_mb : Q)
| UnsupportedVideoFormat
| PotentialTimingMismatch
| TimingSynchronized
| CouldNotVerifyTiming (e : error)
| NoCommandsGenerated
| CommandsVeryShort
| CommandsVeryLong
| NoLoginSequence
| FewInteractionTerms
| PlaceholdersFound
| CommandsGenerated (characters : Z).

(** A [ValidationResult] of any of the four checks. *)
Record Finding : Type := mkFinding {
  f_is_valid : bool;
  f_message : Notice;
  f_severity : string;
  f_suggestion : option string
}.

Definition of_result (r : ValidationResult) : Finding :=
  mkFinding (is_valid r) (OfJsonCheck (message r)) (severity r) (suggestion r).

(** [s.endswith(suffix)] *)
Fixpoint endswith (s suffix : string) : bool :=
  String.eqb s suffix ||
  match s with
  | EmptyString => false
  | String _ s' => endswith s' suffix
  end.

(** [size / (1024 * 1024)] *)
Definition size_mb_of (size : Z) : Q := (inject_Z size / 1048576)%Q.

(** [validate_video_file]; [video] is the size in bytes of the file at
    [video_path], or [None] when there is no such file. *)
Definition validate_video_file (video : option Z) (video_path : string)
  : list Finding :=
  match video with
  | None =>
      [mkFinding false (VideoFileNotFound video_path) "error"
         (Some "Check the file path and ensure the video file exists")]
  | Some size =>
      let size_mb := size_mb_of size in
      let size_results :=
        if Qgtb size_mb 100 then
          [mkFinding false (VideoFileTooLarge size_mb) "error"
             (Some "Compress the video or reduce recording duration. Consider using lower resolution for UI recordings.")]
        else if Qgtb size_mb 50 then
          [mkFinding true (VideoFileLarge size_mb) "warning"
             (Some "Large files may take longer to process and cost more tokens")]
        else
          [mkFinding true (VideoFileSizeOK size_mb) "info" None] in
      let lowered := PyStr.lower video_path in
      let format_results :=
        if negb (existsb (endswith lowered) [".mp4"; ".mov"; ".avi"]) then
          [mkFinding false UnsupportedVideoFormat "error"
             (Some "Use MP4, MOV, or AVI format for best compatibility")]
        else [] in
      size_results ++ format_results
  end.

(** The body of the [try] of [validate_time_synchronization]. *)
Definition synchronization_body (video : option Z) (file : FileState)
  : list Finding + error :=
  match file with
  | Missing => inr FileNotFoundError
  | Unparsable => inr JSONDecodeError
  | Parsed data =>
      match (let* session_info := get data "session_info" (JObj []) in
             get session_info "duration" (JNum 0)) with
      | Raise e => inr (Exn e)
      | Ok json_duration =>
          match video with
          | None => inr FileNotFoundError
          | Some size =>
              let estimated_video_duration := (size_mb_of size * 10)%Q in
              match gt_num json_duration 0 with
              | Raise e => inr (Exn e)
              | Ok false => inl []
              | Ok true =>
                  if overflows json_duration then inr (Exn OverflowError) else
                  let duration_diff :=
                    Qabs (as_num json_duration - estimated_video_duration) in
                  if Qgtb duration_diff 30 then
                    inl [mkFinding true PotentialTimingMismatch "warning"
                           (Some "Verify that video and JSON were recorded in the same session")]
                  else
                    inl [mkFinding true TimingSynchronized "info" None]
              end
          end
      end
  end.

Definition validate_time_synchronization (video : option Z) (file : FileState)
  : list Finding :=
  match synchronization_body video file with
  | inl results => results
  | inr e =>
      [mkFinding true (CouldNotVerifyTiming e) "warning"
         (Some "Manual verification recommended")]
  end.

Definition murex_terms : list string :=
  ["murex"; "click"; "type"; "button"; "field"].

Definition validate_workflow_output (rpa_commands : string) : list Finding :=
  if negb (PyStr.truthy rpa_commands)
     || negb (PyStr.truthy (PyStr.strip rpa_commands))
  then
    [mkFinding false NoCommandsGenerated "error"
       (Some "Check API response and input quality")]
  else
    let length_results :=
      if (PyStr.len rpa_commands <? 100)%Z then
        [mkFinding true CommandsVeryShort "warning"
           (Some "Workflow might be too simple or generation incomplete")]
      else if (5000 <? PyStr.len rpa_commands)%Z then
        [mkFinding true CommandsVeryLong "warning"
           (Some "Consider breaking into smaller workflow sections")]
      else [] in
    let command_lower := PyStr.lower rpa_commands in
    let login_results :=
      if negb (PyStr.contains "login" command_lower) then
        [mkFinding true NoLoginSequence "warning"
           (Some "Most Murex workflows start with login - verify if this is intentional")]
      else [] in
    let found_terms :=
      filter (fun term => PyStr.contains term command_lower) murex_terms in
    let terms_results :=
      if (Z.of_nat (length found_terms) <? 3)%Z then
        [mkFinding true FewInteractionTerms "warning"
           (Some "Commands might be too generic - verify UI context was captured")]
      else [] in
    let placeholder_results :=
      if PyStr.contains "[" rpa_commands && PyStr.contains "]" rpa_commands then
        [mkFinding true PlaceholdersFound "info"
           (Some "Remember to replace placeholder values with actual data before execution")]
      else [] in
    length_results ++ login_results ++ terms_results ++ placeholder_results
    ++ [mkFinding true (CommandsGenerated (PyStr.len rpa_commands)) "info" None].

(** [validate_complete_workflow]: the categories in insertion order.
    [rpa_commands] is [None] when the argument is left out; an exception
    of [validate_json_file] goes through. *)
Definition validate_complete_workflow (video : option Z) (video_path : string)
  (file : FileState) (json_path : string) (rpa_commands : option string)
  : result (list (string * list Finding)) :=
  let video_results := validate_video_file video video_path in
  let* json_results := validate_json_file file json_path in
  let synchronization_results := validate_time_synchronization video file in
  let validation_results :=
    [("video", video_results);
     ("json", map of_result json_results);
     ("synchronization", synchronization_results)] in
  Ok (match rpa_commands with
      | Some commands =>
          if PyStr.truthy commands
          then validation_results ++ [("output", validate_workflow_output commands)]
          else validation_results
      | None => validation_results
      end).

(** The two counters of [print_validation_summary]. *)
Definition count_severity (s : string)
  (validation_results : list (string * list Finding)) : Z :=
  Z.of_nat
    (length
       (filter (fun r => String.eqb (f_severity r) s)
          (concat (map snd validation_results)))).

(** The value [print_validation_summary] returns: [total_errors == 0]. *)
Definition print_validation_summary
  (validation_results : list (string * list Finding)) : bool :=
  (count_severity "error" validation_results =? 0)%Z.

(** [has_errors] after the loop at the head of
    [process_complete_workflow]; when it is set the function returns
    [None] before the event log is read. *)
Definition has_errors (validation_results : list (string * list Finding))
  : bool :=
  existsb (fun category =>
             existsb (fun r => String.eqb (f_severity r) "error") (snd category))
    validation_results.

End Checks.

(** ** Session span ([complete_video_processor.py]) *)

(** [data['session_info']] *)
Record SessionInfo : Type := mkSessionInfo {
  si_duration : option Q
}.

(** The timestamps of the events that have one, in the order in which
    [analyze_complete_video_duration] collects them. *)
Definition present {A : Type} (stamp : A -> option Q) (events : list A) : list Q :=
  flat_map (fun event => match stamp event with Some t => [t] | None => [] end)
    events.

Definition all_timestamps_of (data : EventLog) : list Q :=
  present me_timestamp (get_default (mouse_interactions data) [])
  ++ present ev_timestamp (get_default (keyboard_events data) [])
  ++ present sw_timestamp (get_default (app_switches data) []).

(** [min(l)] on a non-empty list: the first of the smallest items. *)
Definition py_min (first : Q) (rest : list Q) : Q :=
  fold_left (fun m x => if Qgtb m x then x else m) rest first.

(** [max(l)] on a non-empty list: the first of the largest items. *)
Definition py_max (first : Q) (rest : list Q) : Q :=
  fold_left (fun m x => if Qgtb x m then x else m) rest first.

(** Returns [(session_duration, first_interaction, last_interaction)]. *)
Definition analyze_complete_video_duration (session_info : option SessionInfo)
  (data : EventLog) : Q * Q * Q :=
  let session_duration :=
    get_default (si_duration (get_default session_info (mkSessionInfo None))) 0%Q in
  match all_timestamps_of data with
  | first :: rest => (session_duration, py_min first rest, py_max first rest)
  | [] => (session_duration, 0%Q, session_duration)
  end.

(** ** Interaction summary ([enhanced_murex_rpa_generator.py]) *)






(** ** Key events of the macOS recorder
    ([enhanced_rpa_recorder_multiscreen_fixed.py]) *)

(** A one-character string from its code point. *)
Definition chr (n : nat) : string := String (ascii_of_nat n) "".

Definition key_map : list (nat * string) :=
  [(0, "a"); (1, "s"); (2, "d"); (3, "f"); (4, "h"); (5, "g"); (6, "z");
   (7, "x"); (8, "c"); (9, "v"); (10, chr 167); (11, "b"); (12, "q");
   (13, "w"); (14, "e"); (15, "r"); (16, "y"); (17, "t"); (18, "1");
   (19, "2"); (20, "3"); (21, "4"); (22, "6"); (23, "5"); (24, "=");
   (25, "9"); (26, "7"); (27, "-"); (28, "8"); (29, "0"); (30, "]");
   (31, "o"); (32, "u"); (33, "["); (34, "i"); (35, "p"); (36, "Return");
   (37, "l"); (38, "j"); (39, "'"); (40, "k"); (41, ";"); (42, chr 92);
   (43, ","); (44, "/"); (45, "n"); (46, "m"); (47, "."); (48, "Tab");
   (49, "Space"); (50, "`"); (51, "Delete"); (52, "Enter"); (53, "Escape");
   (54, "RightCommand"); (55, "Command"); (56, "Shift"); (57, "CapsLock");
   (58, "Option"); (59, "Control"); (60, "RightShift"); (61, "RightOption");
   (62, "RightControl"); (63, "Function")].

Fixpoint map_get (key_code : nat) (m : list (nat * string)) : option string :=
  match m with
  | [] => None
  | (k, v) :: m' => if (key_code =? k)%nat then Some v else map_get key_code m'
  end.

(** [key_map.get(key_code, f'Key{key_code}')] *)
Definition _key_code_to_name (key_code : nat) : string :=
  get_default (map_get key_code key_map)
    ("Key" ++ NilEmpty.string_of_uint (Nat.to_uint key_code))%string.

(** [c.isalnum()] for one code point below 256: digits and letters of
    ASCII and Latin-1, the superscript digits and the vulgar fractions. *)
Definition isalnum_char (c : ascii) : bool :=
  let n := nat_of_ascii c in
  ((48 <=? n) && (n <=? 57) || (65 <=? n) && (n <=? 90)
   || (97 <=? n) && (n <=? 122)
   || (n =? 170) || (n =? 178) || (n =? 179) || (n =? 181)
   || (n =? 185) || (n =? 186) || (188 <=? n) && (n <=? 190)
   || (192 <=? n) && (n <=? 214) || (216 <=? n) && (n <=? 246)
   || (248 <=? n) && (n <=? 255))%nat.

Fixpoint all_alnum (s : string) : bool :=
  match s with
  | EmptyString => true
  | String c s' => isalnum_char c && all_alnum s'
  end.

(** [s.isalnum()]: non-empty and every character alphanumeric. *)
Definition isalnum (s : string) : bool := PyStr.truthy s && all_alnum s.

Definition character_punctuation : list string :=
  ["."; ","; "!"; "?"; ";"; ":"; "'"; chr 34; " "].

(** The fields the generator reads of the event that [key_event_callback]
    logs on a key-down of [key_code] at [timestamp]. *)
Definition key_down_event (key_code : nat) (timestamp : Q) : KeyEvent :=
  let key_name := _key_code_to_name key_code in
  {| ev_type := Some "key_press";
     ev_key_name := Some key_name;
     ev_is_character :=
       Some (JBool (isalnum key_name
                    || PyStr.in_list key_name character_punctuation));
     ev_timestamp := Some timestamp |}.

(** ** Further vocabulary *)

(** Character presses, as the recorders flag them. *)
Definition typed (keys : list (ascii * Q)) : list KeyEvent :=
  map (fun k => key_press (String (fst k) "") (snd k)) keys.

(** The text of a list of characters. *)
Fixpoint text_of (keys : list (ascii * Q)) : string :=
  match keys with
  | [] => ""
  | k :: keys' => String (fst k) (text_of keys')
  end.

(** Neighbours in [l] are at most [window_size] apart. *)
Fixpoint close_knit (window_size : Q) (l : list UIInteraction) : Prop :=
  match l with
  | a :: (b :: _) as tl =>
      Qleb (timestamp b - timestamp a)%Q window_size = true
      /\ close_knit window_size tl
  | _ => True
  end.

(** Each window starts more than [window_size] after the end of the one
    before. *)
Fixpoint set_apart (window_size : Q) (windows : list TimeWindow) : Prop :=
  match windows with
  | w1 :: (w2 :: _) as tl =>
      Qleb (win_start w2 - win_end w1)%Q window_size = false
      /\ set_apart window_size tl
  | _ => True
  end.

(** The window starts at its first interaction and ends at its last. *)
Definition spans_members (w : TimeWindow) : Prop :=
  exists first rest,
    win_interactions w = first :: rest
    /\ win_start w = timestamp first
    /\ win_end w = timestamp (last rest first).

(** ** Acceptance of a generated workflow
    ([process_complete_workflow], [complete_video_processor.py]) *)

Module Acceptance.
Import Scorer.

(** [completion_score['score'] < 6]: the workflow is not written out and
    the function returns [None]. *)
Definition rejects (completion_score : Completeness) : bool :=
  (score completion_score <? 6)%Z.

(** The "Missing: ..." lines printed on rejection. *)
Inductive Missing : Type :=
| MissingLogin
| MissingCompletion
| MissingDetail
| MissingPatterns (found : Z)
| MissingStructure.

Definition missing_report (completion_score : Completeness) : list Missing :=
  (if negb (has_login completion_score) then [MissingLogin] else [])
  ++ (if negb (has_completion completion_score) then [MissingCompletion] else [])
  ++ (if negb (adequate_length completion_score) then [MissingDetail] else [])
  ++ (if negb (has_murex_patterns completion_score)
      then [MissingPatterns (murex_pattern_count completion_score)] else [])
  ++ (if negb (has_structured_format completion_score)
      then [MissingStructure] else []).

End Acceptance.

(** ** Interaction timeline ([enhanced_murex_rpa_generator.py]) *)

(** A line of the timeline, with the values its f-string formats. *)
Inductive TimelineLine : Type :=
| TimelineTitle
| TotalInteractions (n : Z)
| EmptyLine
| KeyMoments
| WindowHeader (number : Z) (win_start win_end : Q)
| EntryLine (timestamp : Q) (description : string)
| CoordinatesLine (coordinates : Z * Z)
| TextContentLine (text : string).

(** The lines printed for one interaction. *)
Definition entry_lines (interaction : UIInteraction) : list TimelineLine :=
  [EntryLine (timestamp interaction) (description interaction)]
  ++ match coordinates interaction with
     | Some xy => [CoordinatesLine xy]
     | None => []
     end
  ++ match text_content interaction with
     | Some text => if PyStr.truthy text then [TextContentLine text] else []
     | None => []
     end.

(** The lines of the windows from number [i + 1] on. *)
Fixpoint window_lines (i : nat) (time_windows : list TimeWindow)
  : list TimelineLine :=
  match time_windows with
  | [] => []
  | window :: rest =>
      [WindowHeader (Z.of_nat (i + 1)) (win_start window) (win_end window)]
      ++ flat_map entry_lines (win_interactions window)
      ++ [EmptyLine]
      ++ window_lines (S i) rest
  end.

(** The lines that [create_interaction_timeline] joins; the windows are
    built with the default [window_size] of 2.0. *)
Definition create_interaction_timeline (interactions : list UIInteraction)
  : list TimelineLine :=
  [TimelineTitle; TotalInteractions (Z.of_nat (length interactions));
   EmptyLine; KeyMoments; EmptyLine]
  ++ window_lines 0 (_create_time_windows interactions 2%Q).

(** The entries of a timeline, in order. *)
Definition entries_of (lines : list TimelineLine) : list (Q * string) :=
  flat_map (fun line => match line with
                        | EntryLine t d => [(t, d)]
                        | _ => []
                        end) lines.

(** The window numbers of a timeline, in order. *)
Definition headers_of (lines : list TimelineLine) : list Z :=
  flat_map (fun line => match line with
                        | WindowHeader n _ _ => [n]
                        | _ => []
                        end) lines.

(** ** The two loops with the machine's subtraction

    The source subtracts floats: [a - b] is the exact difference rounded
    to a float.  Below, [minus] stands for that operation on the float
    values seen as rationals; nothing is assumed of it here, so what is
    proved holds of the rounded subtraction as of the exact one.
    Comparisons and the values copied from the input are exact in both
    readings. *)

Section MachineSubtraction.

Variable minus : Q -> Q -> Q.

(** Body of the loop of [_create_time_windows], line 204 computing
    [interaction.timestamp - current_window['end']] with [minus]. *)
Definition window_step_by (window_size : Q) (st : list TimeWindow * TimeWindow)
  (interaction : UIInteraction) : list TimeWindow * TimeWindow :=
  let (windows, current_window) := st in
  if Qleb (minus (timestamp interaction) (win_end current_window)) window_size
  then (windows,
        {| win_start := win_start current_window;
           win_end := timestamp interaction;
           win_interactions := win_interactions current_window ++ [interaction] |})
  else (windows ++ [current_window],
        {| win_start := timestamp interaction;
           win_end := timestamp interaction;
           win_interactions := [interaction] |}).

Definition create_time_windows_by (interactions : list UIInteraction)
  (window_size : Q) : list TimeWindow :=
  match interactions with
  | [] => []
  | first :: rest =>
      let (windows, current_window) :=
        fold_left (window_step_by window_size) rest
          ([], {| win_start := timestamp first;
                  win_end := timestamp first;
                  win_interactions := [first] |}) in
      windows ++ [current_window]
  end.

(** [_find_interaction_gaps], lines 151 and 162 computing the
    differences with [minus]. *)
Definition find_interaction_gaps_by (interactions : list UIInteraction)
  (session_duration gap_threshold : Q) : list Gap :=
  match interactions with
  | [] => [mkGap 0 session_duration session_duration]
  | _ :: _ =>
      let sorted_interactions := sorted_by timestamp interactions in
      let at_ (i : nat) : Q := nth i (map timestamp sorted_interactions) 0%Q in
      let n := length sorted_interactions in
      let first_timestamp := at_ 0%nat in
      let leading :=
        if Qgtb first_timestamp gap_threshold
        then [mkGap 0 first_timestamp first_timestamp] else [] in
      let between :=
        flat_map
          (fun i =>
             let current_time := at_ i in
             let next_time := at_ (i + 1)%nat in
             let gap_duration := minus next_time current_time in
             if Qgtb gap_duration gap_threshold
             then [mkGap current_time next_time gap_duration] else [])
          (seq 0 (n - 1)) in
      let last_timestamp := at_ (n - 1)%nat in
      let trailing :=
        if Qgtb (minus session_duration last_timestamp) gap_threshold
        then [mkGap last_timestamp session_duration
                (minus session_duration last_timestamp)]
        else [] in
      leading ++ between ++ trailing
  end.

(** The difference the code computes between neighbours of [l] is at
    most [window_size]. *)
Fixpoint close_knit_by (window_size : Q) (l : list UIInteraction) : Prop :=
  match l with
  | a :: (b :: _) as tl =>
      Qleb (minus (timestamp b) (timestamp a)) window_size = true
      /\ close_knit_by window_size tl
  | _ => True
  end.

(** The difference the code computes between the start of each window
    and the end of the one before is above [window_size]. *)
Fixpoint set_apart_by (window_size : Q) (windows : list TimeWindow) : Prop :=
  match windows with
  | w1 :: (w2 :: _) as tl =>
      Qleb (minus (win_start w2) (win_end w1)) window_size = false
      /\ set_apart_by window_size tl
  | _ => True
  end.

End MachineSubtraction.

(** ** Vocabulary of the statements *)

(** The event passes the guard of the grouper's loop body. *)
Definition passes_guard (e : KeyEvent) : Prop :=
  ev_type e = Some "key_press" /\ truthy_get (ev_is_character e) = true.

Definition names_enter (e : KeyEvent) : Prop :=
  ev_key_name e = Some "Return" \/ ev_key_name e = Some "Enter".

Definition names_delete (e : KeyEvent) : Prop :=
  ev_key_name e = Some "Delete" \/ ev_key_name e = Some "BackSpace".

(** The accumulator is non-empty after trimming whitespace. *)
Definition nonblank (s : string) : Prop :=
  PyStr.truthy (PyStr.strip s) = true.

(** Ascending by [key]. *)
Definition le_key {A : Type} (key : A -> Q) (a b : A) : Prop :=
  (key a <= key b)%Q.

(** The interaction is stamped [t]. *)
Definition at_time (t : Q) (i : UIInteraction) : bool :=
  Qeq_bool (timestamp i) t.

(** Ascending by timestamp. *)
Definition by_timestamp (a b : UIInteraction) : Prop :=
  (timestamp a <= timestamp b)%Q.

(** [x] occurs somewhere before [y] in [l]. *)
Definition precedes_in {A : Type} (l : list A) (x y : A) : Prop :=
  exists l1 l2 l3, l = l1 ++ x :: l2 ++ y :: l3.

(** Place of an action type in the order in which the extractor appends
    to [interactions]: typed text, then clicks, then navigation. *)
Definition append_rank (i : UIInteraction) : nat :=
  if String.eqb (action_type i) "type" then 0
  else if String.eqb (action_type i) "click" then 1
  else 2.

(** An event log with one typed character and one left click, both
    stamped 1. *)
Definition tie_log : EventLog :=
  {| mouse_interactions :=
       Some [mkMouseEvent (Some "mouse_press") (Some "left")
               (Some (mkPosition (Some 10%Z) (Some 20%Z))) (Some 1%Q)];
     keyboard_events := Some [key_press "a" 1%Q];
     app_switches := None |}.

(** The order the specification gives: mouse clicks, then typed text,
    then navigation. *)
Definition claimed_rank (i : UIInteraction) : nat :=
  if String.eqb (action_type i) "click" then 0
  else if String.eqb (action_type i) "type" then 1
  else 2.

(** A click stamped [t]. *)
Definition click_at (t : Q) : UIInteraction :=
  click_of (mkMouseEvent (Some "mouse_press") (Some "left") None (Some t)).

(** The interactions of a list of windows, laid end to end. *)
Definition members (windows : list TimeWindow) : list UIInteraction :=
  concat (map win_interactions windows).

(** A text of [n] characters. *)
Fixpoint filler (n : nat) : string :=
  match n with
  | O => ""
  | S n' => String "x" (filler n')
  end.

(** Number of interactions in the windows before window number [w]. *)
Definition offset (windows : list TimeWindow) (w : nat) : nat :=
  list_sum (map (fun win => length (win_interactions win)) (firstn w windows)).

(** Position [j] of window number [w] exists in [windows]. *)
Definition slot (windows : list TimeWindow) (w j : nat) : Prop :=
  exists win, nth_error windows w = Some win
              /\ j < length (win_interactions win).

(** The grouper's invariant: pending text has a start, and every emitted
    sequence carries a timestamp. *)
Definition group_inv (st : GroupState) : Prop :=
  (current_text st <> "" -> sequence_start st <> None)
  /\ Forall (fun s => seq_timestamp s <> None) (sequences st).

(** An entry the loop itself emits: a [delete] with empty text, or an
    [enter]/[tab] whose text is non-empty after trimming. *)
Definition closed_entry (s : TextSequence) : Prop :=
  (seq_end_action s = "delete" /\ seq_text s = "")
  \/ ((seq_end_action s = "enter" \/ seq_end_action s = "tab")
      /\ nonblank (seq_text s)).

(** The first gap ends no later than the second begins. *)
Definition gap_before (g1 g2 : Gap) : Prop := (gap_end g1 <= gap_start g2)%Q.

(** Key codes whose press leaves no trace in the grouped text: the
    recorder does not flag them as characters, or names them with more
    than one letter. *)
Definition dropped_codes : list nat :=
  [10; 24; 27; 30; 33; 42; 44; 49; 50; 53; 54; 55; 56; 57; 58; 59; 60;
   61; 62; 63].

(** Key codes of [Return], [Enter], [Tab] and [Delete]. *)
Definition control_codes : list nat := [36; 52; 48; 51].

(** Membership of a key code in a list, as a boolean. *)
Definition code_in (key_code : nat) (codes : list nat) : bool :=
  existsb (Nat.eqb key_code) codes.


(** * Properties of the text-sequence grouper *)

Lemma group_run_snoc (pre : list KeyEvent) (e : KeyEvent) :
  group_run (pre ++ [e]) = group_step (group_run pre) e.
Proof. unfold group_run. now rewrite fold_left_app. Qed.

Lemma get_eq_true (v : option string) (s : string) :
  get_eq v s = true <-> v = Some s.
Proof.
  destruct v as [a|]; simpl.
  - rewrite String.eqb_eq. split; congruence.
  - split; discriminate.
Qed.

Lemma guard_true (e : KeyEvent) :
  passes_guard e ->
  get_eq (ev_type e) "key_press" && truthy_get (ev_is_character e) = true.
Proof.
  intros [Ht Hc]. apply andb_true_intro. split; [now apply get_eq_true | exact Hc].
Qed.

Lemma guard_false (e : KeyEvent) :
  ev_type e <> Some "key_press" \/ truthy_get (ev_is_character e) = false ->
  get_eq (ev_type e) "key_press" && truthy_get (ev_is_character e) = false.
Proof.
  intros [Ht | Hc].
  - destruct (get_eq (ev_type e) "key_press") eqn:E; [|reflexivity].
    apply get_eq_true in E. contradiction.
  - rewrite Hc. apply andb_false_r.
Qed.

(** A step outside the guard leaves the three loop variables alone. *)
Lemma group_step_ignored (st : GroupState) (e : KeyEvent) :
  ev_type e <> Some "key_press" \/ truthy_get (ev_is_character e) = false ->
  group_step st e = st.
Proof. intros H. unfold group_step. now rewrite (guard_false e H). Qed.

Lemma group_step_enter (st : GroupState) (e : KeyEvent) :
  passes_guard e -> names_enter e -> group_step st e = terminate "enter" st.
Proof.
  intros Hg Hk. unfold group_step. rewrite (guard_true e Hg).
  destruct Hk as [Hk | Hk]; rewrite Hk; reflexivity.
Qed.

Lemma group_step_delete (st : GroupState) (e : KeyEvent) :
  passes_guard e -> names_delete e ->
  group_step st e =
  if PyStr.truthy (current_text st)
  then mkGroupState (sequences st) (PyStr.drop_last (current_text st))
         (sequence_start st)
  else mkGroupState
         (sequences st ++ [mkSeq (Some (get_default (ev_timestamp e) 0%Q)) "" "delete"])
         (current_text st) (sequence_start st).
Proof.
  intros Hg Hk. unfold group_step. rewrite (guard_true e Hg).
  destruct Hk as [Hk | Hk]; rewrite Hk; reflexivity.
Qed.

(** Sequences are only ever appended. *)
Lemma group_step_grows (st : GroupState) (e : KeyEvent) :
  exists new, sequences (group_step st e) = sequences st ++ new.
Proof.
  unfold group_step, terminate.
  repeat match goal with
         | |- context [if ?b then _ else _] => destruct b
         end; simpl;
    solve [ eexists; reflexivity | exists []; now rewrite app_nil_r ].
Qed.

Lemma fold_group_grows (post : list KeyEvent) (st : GroupState) :
  exists new, sequences (fold_left group_step post st) = sequences st ++ new.
Proof.
  revert st. induction post as [|e post IH]; intros st; simpl.
  - exists []. now rewrite app_nil_r.
  - destruct (IH (group_step st e)) as [n2 H2].
    destruct (group_step_grows st e) as [n1 H1].
    exists (n1 ++ n2). now rewrite H2, H1, app_assoc.
Qed.

(** What the loop has emitted after a prefix of the stream stays at the
    front of the final result. *)
Lemma group_output_extends (pre post : list KeyEvent) :
  exists rest,
    _group_text_sequences (pre ++ post) = sequences (group_run pre) ++ rest.
Proof.
  unfold _group_text_sequences, group_run. rewrite fold_left_app.
  destruct (fold_group_grows post (fold_left group_step pre group_init)) as [new H].
  unfold group_finish.
  destruct (PyStr.truthy _); rewrite H.
  - rewrite <- app_assoc. eexists; reflexivity.
  - eexists; reflexivity.
Qed.

Lemma drop_last_snoc (s : string) (c : ascii) :
  PyStr.drop_last (s ++ String c "") = s.
Proof.
  induction s as [|a s IH]; simpl; [reflexivity|].
  rewrite IH. destruct s; reflexivity.
Qed.

Lemma truthy_nonempty (s : string) : PyStr.truthy s = true <-> s <> "".
Proof.
  destruct s; simpl; split; intros H; try discriminate; try reflexivity.
  now elim H.
Qed.

Lemma nonblank_nonempty (s : string) : nonblank s -> s <> "".
Proof. intros H E. subst s. discriminate H. Qed.

Lemma drop_last_length (s : string) :
  (String.length (PyStr.drop_last s) <= String.length s)%nat.
Proof.
  induction s as [|a s IH]; simpl; [lia|].
  destruct s; simpl in *; lia.
Qed.

Lemma length_one (key : string) :
  (String.length key =? 1)%nat = true -> exists c, key = String c "".
Proof.
  destruct key as [|c [|d key]]; simpl; try discriminate.
  intros _. now exists c.
Qed.

(** The accumulator grows only in the character branch. *)
Lemma group_step_accumulates (st : GroupState) (e : KeyEvent) :
  (String.length (current_text st)
   < String.length (current_text (group_step st e)))%nat ->
  passes_guard e /\
  exists c, ev_key_name e = Some (String c "") /\
            current_text (group_step st e)
            = (current_text st ++ String c "")%string.
Proof.
  unfold group_step.
  destruct (get_eq (ev_type e) "key_press" && truthy_get (ev_is_character e))
    eqn:G; [|lia].
  apply andb_prop in G. destruct G as [Gt Gc]. apply get_eq_true in Gt.
  destruct (PyStr.in_list _ ["Return"; "Enter"]); [simpl; lia|].
  destruct (String.eqb _ "Tab"); [simpl; lia|].
  destruct (PyStr.in_list _ ["Delete"; "BackSpace"]).
  - destruct (PyStr.truthy (current_text st)); simpl; [|lia].
    pose proof (drop_last_length (current_text st)). lia.
  - destruct (PyStr.truthy (get_default (ev_key_name e) "")); simpl; [|lia].
    destruct (String.length (get_default (ev_key_name e) "") =? 1)%nat eqn:L;
      [|lia].
    intros _. split; [now split|].
    destruct (length_one _ L) as [c Hc]. exists c. simpl. rewrite Hc.
    split; [|reflexivity].
    destruct (ev_key_name e); simpl in Hc; [now subst|discriminate].
Qed.

Lemma group_inv_step (st : GroupState) (e : KeyEvent) :
  group_inv st -> group_inv (group_step st e).
Proof.
  intros [Hs Hq]. unfold group_step, terminate.
  destruct (get_eq _ _ && truthy_get _); [|now split].
  assert (Hem : forall a, PyStr.truthy (PyStr.strip (current_text st)) = true ->
                          Forall (fun s => seq_timestamp s <> None)
                            (sequences st ++ [mkSeq (sequence_start st) (current_text st) a])).
  { intros a Hn. apply Forall_app. split; [exact Hq|].
    constructor; [|constructor]. simpl. apply Hs.
    now apply nonblank_nonempty. }
  destruct (PyStr.in_list _ ["Return"; "Enter"]).
  { split; simpl; [congruence|]. destruct (PyStr.truthy _) eqn:E; auto. }
  destruct (String.eqb _ "Tab").
  { split; simpl; [congruence|]. destruct (PyStr.truthy _) eqn:E; auto. }
  destruct (PyStr.in_list _ ["Delete"; "BackSpace"]).
  { destruct (PyStr.truthy (current_text st)) eqn:E; split; simpl; auto.
    - intros _. apply Hs. now apply truthy_nonempty.
    - apply Forall_app. split; [exact Hq|].
      constructor; [simpl; discriminate | constructor]. }
  destruct (PyStr.truthy (get_default _ _) && _); [|now split].
  split; simpl; [|exact Hq].
  intros _. destruct (PyStr.truthy (current_text st)) eqn:E; simpl.
  - apply Hs. now apply truthy_nonempty.
  - discriminate.
Qed.

Lemma group_inv_run (evs : list KeyEvent) : group_inv (group_run evs).
Proof.
  unfold group_run.
  assert (H : forall st, group_inv st -> group_inv (fold_left group_step evs st)).
  { induction evs as [|e evs IH]; intros st Hst; simpl; [exact Hst|].
    apply IH. now apply group_inv_step. }
  apply H. split; simpl; [congruence | constructor].
Qed.

(** Every sequence the grouper returns has a timestamp, so the default
    in [type_of] is never taken. *)
Lemma group_timestamps (evs : list KeyEvent) :
  Forall (fun s => exists t, seq_timestamp s = Some t) (_group_text_sequences evs).
Proof.
  assert (H : Forall (fun s => seq_timestamp s <> None) (_group_text_sequences evs)).
  { destruct (group_inv_run evs) as [Hs Hq].
    unfold _group_text_sequences, group_finish.
    destruct (PyStr.truthy _) eqn:E; [|exact Hq].
    apply Forall_app. split; [exact Hq|].
    constructor; [|constructor]. simpl. apply Hs. now apply nonblank_nonempty. }
  eapply Forall_impl; [|exact H].
  intros s Hn. simpl in Hn. destruct (seq_timestamp s) as [t|]; [now exists t | now elim Hn].
Qed.

(** C2 (as stated) fails: an [Enter] press whose [is_character] flag is
    false arrives with the accumulator holding "hi"; the loop skips it,
    so nothing is emitted, nothing is reset, and the text comes out at
    the end of the stream as [incomplete] rather than [enter]. *)
Lemma enter_without_flag_ignored :
  let pre := [key_press "h" 1%Q; key_press "i" 2%Q] in
  let e := plain_press "Enter" 3%Q in
  ev_type e = Some "key_press" /\ names_enter e
  /\ nonblank (current_text (group_run pre))
  /\ group_run (pre ++ [e]) = group_run pre
  /\ current_text (group_run (pre ++ [e])) = "hi"
  /\ sequences (group_run (pre ++ [e])) = []
  /\ _group_text_sequences (pre ++ [e]) = [mkSeq (Some 1%Q) "hi" "incomplete"].
Proof. cbv zeta. repeat split; try reflexivity. right; reflexivity. Qed.

(** C2 (amended): a [Return]/[Enter] key press that passes the loop guard
    (type [key_press], truthy [is_character]) emits
    [{start, accumulator, end_action=enter}] when the accumulator is
    non-empty after trimming, emits nothing otherwise, and resets the
    accumulator and the start in both cases; what it emits stays in the
    returned list.  The stream "h", "i", Enter of such presses yields
    exactly [[{start of "h", "hi", enter}]]. *)
Theorem enter_emits_and_resets (pre post : list KeyEvent) (e : KeyEvent) :
  passes_guard e -> names_enter e ->
  let st := group_run pre in
  let st' := group_run (pre ++ [e]) in
  let emitted := mkSeq (sequence_start st) (current_text st) "enter" in
  (nonblank (current_text st) ->
     sequences st' = sequences st ++ [emitted]
     /\ exists rest,
         _group_text_sequences (pre ++ e :: post)
         = sequences st ++ emitted :: rest)
  /\ (~ nonblank (current_text st) -> sequences st' = sequences st)
  /\ current_text st' = ""
  /\ sequence_start st' = None
  /\ (forall (key : string) (t1 t2 t3 : Q),
        key = "Return" \/ key = "Enter" ->
        _group_text_sequences
          [key_press "h" t1; key_press "i" t2; key_press key t3]
        = [mkSeq (Some t1) "hi" "enter"]).
Proof.
  intros Hg Hk st st' emitted.
  assert (Hst : st' = terminate "enter" st).
  { unfold st'. rewrite group_run_snoc. now apply group_step_enter. }
  split; [|split; [|split; [|split]]].
  - intros H. unfold nonblank in H. split.
    + rewrite Hst. unfold terminate; simpl. now rewrite H.
    + destruct (group_output_extends (pre ++ [e]) post) as [rest Hr].
      rewrite <- app_assoc in Hr. simpl in Hr. rewrite Hr.
      fold st'. rewrite Hst. unfold terminate; simpl.
      rewrite H. rewrite <- app_assoc. simpl.
      now exists rest.
  - intros Hn. rewrite Hst. unfold terminate; simpl.
    unfold nonblank in Hn. now destruct (PyStr.truthy _).
  - now rewrite Hst.
  - now rewrite Hst.
  - intros key t1 t2 t3 [-> | ->]; reflexivity.
Qed.

Lemma enter_emits_and_resets_witness :
  let pre := [key_press "h" 1%Q; key_press "i" 2%Q] in
  let e := key_press "Enter" 3%Q in
  passes_guard e /\ names_enter e /\ nonblank (current_text (group_run pre))
  /\ sequences (group_run (pre ++ [e])) = [mkSeq (Some 1%Q) "hi" "enter"]
  /\ current_text (group_run (pre ++ [e])) = ""
  /\ sequence_start (group_run (pre ++ [e])) = None.
Proof.
  cbv zeta.
  assert (Hg : passes_guard (key_press "Enter" 3%Q)) by (split; reflexivity).
  assert (Hk : names_enter (key_press "Enter" 3%Q)) by (right; reflexivity).
  assert (Hn : nonblank (current_text (group_run [key_press "h" 1%Q; key_press "i" 2%Q])))
    by reflexivity.
  destruct (enter_emits_and_resets
              [key_press "h" 1%Q; key_press "i" 2%Q] [] (key_press "Enter" 3%Q) Hg Hk)
    as (He & _ & Ht & Hs & _).
  split; [exact Hg|]. split; [exact Hk|]. split; [exact Hn|].
  split; [exact (proj1 (He Hn))|]. split; [exact Ht | exact Hs].
Defined.

(** C7 (as stated) fails: a [Delete] press whose [is_character] flag is
    false removes nothing from a pending "h" and, on an empty
    accumulator, emits nothing; the stream "h", BackSpace, BackSpace of
    such presses returns the untouched "h" and no [delete] event. *)
Lemma delete_without_flag_ignored :
  let e := plain_press "Delete" 2%Q in
  ev_type e = Some "key_press" /\ names_delete e
  /\ current_text (group_run [key_press "h" 1%Q]) = "h"
  /\ current_text (group_run ([key_press "h" 1%Q] ++ [e])) = "h"
  /\ current_text (group_run []) = ""
  /\ sequences (group_run ([] ++ [e])) = []
  /\ _group_text_sequences
       [key_press "h" 1%Q; plain_press "BackSpace" 2%Q; plain_press "BackSpace" 3%Q]
     = [mkSeq (Some 1%Q) "h" "incomplete"].
Proof.
  cbv zeta.
  split; [reflexivity|]. split; [left; reflexivity|].
  split; [reflexivity|]. split; [reflexivity|].
  split; [reflexivity|]. split; reflexivity.
Qed.

(** C7 (amended): a key press that passes the loop guard (type
    [key_press], truthy [is_character]) and is named [Delete] or
    [BackSpace] removes the last character of a non-empty accumulator
    and emits nothing; on an empty accumulator it emits
    [{timestamp of the press, '', end_action=delete}] at once and leaves
    the accumulator empty.  The start is kept in both cases.  The stream
    "h", BackSpace, BackSpace of such presses yields exactly one
    empty-text [delete] event, stamped with the second BackSpace. *)
Theorem delete_removes_or_reports (pre : list KeyEvent) (e : KeyEvent) :
  passes_guard e -> names_delete e ->
  let st := group_run pre in
  let st' := group_run (pre ++ [e]) in
  (forall (s : string) (c : ascii),
      current_text st = (s ++ String c "")%string ->
      current_text st' = s /\ sequences st' = sequences st)
  /\ (current_text st = "" ->
      sequences st'
      = sequences st ++ [mkSeq (Some (get_default (ev_timestamp e) 0%Q)) "" "delete"]
      /\ current_text st' = "")
  /\ sequence_start st' = sequence_start st
  /\ (forall (key : string) (t1 t2 t3 : Q),
        key = "Delete" \/ key = "BackSpace" ->
        _group_text_sequences
          [key_press "h" t1; key_press key t2; key_press key t3]
        = [mkSeq (Some t3) "" "delete"]).
Proof.
  intros Hg Hk st st'.
  assert (Hst : st' = group_step st e).
  { unfold st'. now rewrite group_run_snoc. }
  rewrite (group_step_delete st e Hg Hk) in Hst.
  split; [|split; [|split]].
  - intros s c Hs. rewrite Hst, Hs.
    assert (Ht : PyStr.truthy (s ++ String c "") = true).
    { apply truthy_nonempty. destruct s; discriminate. }
    rewrite Ht. simpl. rewrite drop_last_snoc. now split.
  - intros Hs. rewrite Hst, Hs. simpl. now split.
  - rewrite Hst. now destruct (PyStr.truthy (current_text st)).
  - intros key t1 t2 t3 [-> | ->]; reflexivity.
Qed.

Lemma delete_removes_or_reports_witness :
  let pre := [key_press "h" 1%Q; key_press "i" 2%Q] in
  let e := key_press "BackSpace" 3%Q in
  passes_guard e /\ names_delete e
  /\ current_text (group_run pre) = "hi"
  /\ current_text (group_run (pre ++ [e])) = "h"
  /\ sequences (group_run (pre ++ [e])) = [].
Proof.
  cbv zeta.
  assert (Hg : passes_guard (key_press "BackSpace" 3%Q)) by (split; reflexivity).
  assert (Hk : names_delete (key_press "BackSpace" 3%Q)) by (right; reflexivity).
  destruct (delete_removes_or_reports
              [key_press "h" 1%Q; key_press "i" 2%Q] (key_press "BackSpace" 3%Q) Hg Hk)
    as (Hd & _).
  split; [exact Hg|]. split; [exact Hk|]. split; [reflexivity|].
  exact (Hd "h" "i"%char eq_refl).
Defined.

(** C10: an event whose type is not [key_press], or whose [is_character]
    is absent or falsy, leaves the accumulator, the start and the emitted
    sequences untouched whatever its key name ([Return], [Enter], [Tab],
    [Delete] and [BackSpace] included), so dropping it from the stream
    does not change the result; and the accumulator grows only by one
    character, on a guarded press whose key name has length exactly 1. *)
Theorem unflagged_event_is_ignored (pre post : list KeyEvent) (e : KeyEvent)
  (st : GroupState) :
  ev_type e <> Some "key_press" \/ truthy_get (ev_is_character e) = false ->
  group_step st e = st
  /\ _group_text_sequences (pre ++ e :: post) = _group_text_sequences (pre ++ post)
  /\ (forall (key : string) (t : Q),
        group_step st (plain_press key t) = st
        /\ group_step st (mkKeyEvent (Some "key_press") (Some key) None (Some t)) = st)
  /\ (forall (st0 : GroupState) (e0 : KeyEvent),
        (String.length (current_text st0)
         < String.length (current_text (group_step st0 e0)))%nat ->
        passes_guard e0 /\
        exists c, ev_key_name e0 = Some (String c "") /\
                  current_text (group_step st0 e0)
                  = (current_text st0 ++ String c "")%string).
Proof.
  intros H.
  split; [now apply group_step_ignored|].
  split; [|split].
  - unfold _group_text_sequences, group_run.
    rewrite !fold_left_app. simpl. now rewrite (group_step_ignored _ e H).
  - intros key t. split; apply group_step_ignored; right; reflexivity.
  - apply group_step_accumulates.
Qed.

Lemma unflagged_event_is_ignored_witness :
  let pre := [key_press "h" 1%Q] in
  let e := plain_press "Return" 2%Q in
  let post := [key_press "i" 3%Q] in
  truthy_get (ev_is_character e) = false
  /\ _group_text_sequences (pre ++ e :: post) = [mkSeq (Some 1%Q) "hi" "incomplete"].
Proof.
  cbv zeta. split; [reflexivity|].
  destruct (unflagged_event_is_ignored
              [key_press "h" 1%Q] [key_press "i" 3%Q] (plain_press "Return" 2%Q)
              group_init (or_intror eq_refl)) as (_ & Hdrop & _).
  rewrite Hdrop. reflexivity.
Defined.

(** [BackSpace] is matched with this spelling only: a flagged press
    named [Backspace] is neither a terminator nor one character long,
    and is skipped. *)
Lemma backspace_spelling :
  _group_text_sequences
    [key_press "h" 1%Q; key_press "Backspace" 2%Q; key_press "Backspace" 3%Q]
  = [mkSeq (Some 1%Q) "h" "incomplete"].
Proof. reflexivity. Qed.

(** * Properties of the stable sort *)

Section StableSortFacts.

Context {A : Type} (key : A -> Q).

Lemma insert_by_perm (x : A) (l : list A) :
  Permutation (insert_by key x l) (x :: l).
Proof.
  induction l as [|y l IH]; simpl; [reflexivity|].
  destruct (Qleb (key x) (key y)); [reflexivity|].
  rewrite IH. apply perm_swap.
Qed.

Lemma sorted_by_perm (l : list A) : Permutation (sorted_by key l) l.
Proof.
  induction l as [|x l IH]; simpl; [reflexivity|].
  rewrite insert_by_perm. now constructor.
Qed.

Lemma insert_by_sorted (x : A) (l : list A) :
  StronglySorted (le_key key) l -> StronglySorted (le_key key) (insert_by key x l).
Proof.
  induction 1 as [|y l Hl IH Hy]; simpl.
  - constructor; constructor.
  - destruct (Qleb (key x) (key y)) eqn:E.
    + apply Qle_bool_iff in E.
      constructor; [now constructor|].
      constructor; [exact E|].
      eapply Forall_impl; [|exact Hy].
      intros a Ha. unfold le_key in *. eapply Qle_trans; eassumption.
    + constructor; [exact IH|].
      rewrite (insert_by_perm x l).
      constructor; [|exact Hy].
      unfold le_key. apply Qlt_le_weak, Qnot_le_lt.
      intros C. apply Qle_bool_iff in C. unfold Qleb in E. congruence.
Qed.

Lemma sorted_by_sorted (l : list A) : StronglySorted (le_key key) (sorted_by key l).
Proof.
  induction l as [|x l IH]; simpl; [constructor|].
  now apply insert_by_sorted.
Qed.

(** Inserting never moves an element across one with an equal key. *)
Lemma filter_insert_by (t : Q) (x : A) (l : list A) :
  filter (fun a => Qeq_bool (key a) t) (insert_by key x l)
  = filter (fun a => Qeq_bool (key a) t) (x :: l).
Proof.
  induction l as [|y l IH]; [reflexivity|].
  simpl insert_by. destruct (Qleb (key x) (key y)) eqn:E; [reflexivity|].
  simpl. simpl in IH. rewrite IH.
  destruct (Qeq_bool (key x) t) eqn:Ex; [|reflexivity].
  destruct (Qeq_bool (key y) t) eqn:Ey; [|reflexivity].
  exfalso. apply Qeq_bool_iff in Ex, Ey.
  assert (L : (key x <= key y)%Q).
  { rewrite Ex, Ey. apply Qle_refl. }
  apply Qle_bool_iff in L. unfold Qleb in E. congruence.
Qed.

(** Stability: the elements with a given key come out in input order. *)
Lemma sorted_by_stable (t : Q) (l : list A) :
  filter (fun a => Qeq_bool (key a) t) (sorted_by key l)
  = filter (fun a => Qeq_bool (key a) t) l.
Proof.
  induction l as [|x l IH]; [reflexivity|].
  simpl sorted_by. rewrite filter_insert_by. simpl. now rewrite IH.
Qed.

End StableSortFacts.

Lemma precedes_in_filter {A : Type} (p : A -> bool) (l : list A) (x y : A) :
  precedes_in l x y -> p x = true -> p y = true ->
  precedes_in (filter p l) x y.
Proof.
  intros (l1 & l2 & l3 & ->) Hx Hy.
  exists (filter p l1), (filter p l2), (filter p l3).
  rewrite filter_app. simpl. rewrite Hx, filter_app. simpl. now rewrite Hy.
Qed.

Lemma precedes_in_sorted {A : Type} (R : A -> A -> Prop) (l : list A) (x y : A) :
  StronglySorted R l -> precedes_in l x y -> R x y.
Proof.
  intros Hs (l1 & l2 & l3 & ->).
  induction l1 as [|a l1 IH]; simpl in Hs.
  - apply StronglySorted_inv in Hs. destruct Hs as [_ Hall].
    rewrite Forall_forall in Hall. apply Hall.
    apply in_or_app. right. now left.
  - apply StronglySorted_inv in Hs. now apply IH.
Qed.

Lemma sorted_app {A : Type} (R : A -> A -> Prop) (l1 l2 : list A) :
  StronglySorted R l1 -> StronglySorted R l2 ->
  (forall a b, In a l1 -> In b l2 -> R a b) ->
  StronglySorted R (l1 ++ l2).
Proof.
  intros H1 H2 H12. induction H1 as [|a l1 Hl IH Ha]; simpl; [exact H2|].
  constructor.
  - apply IH. intros x y Hx Hy. apply H12; [now right | exact Hy].
  - apply Forall_app. split; [exact Ha|].
    apply Forall_forall. intros b Hb. apply H12; [now left | exact Hb].
Qed.

Lemma sorted_constant {A : Type} (rank : A -> nat) (n : nat) (l : list A) :
  Forall (fun a => rank a = n) l ->
  StronglySorted (fun a b => rank a <= rank b) l.
Proof.
  induction 1 as [|a l Ha Hl IH]; constructor; [exact IH|].
  eapply Forall_impl; [|exact Hl]. intros b Hb. simpl in Hb. lia.
Qed.

(** * Properties of the interaction extractor *)

Lemma types_of_rank (data : EventLog) :
  Forall (fun i => action_type i = "type") (types_of data).
Proof. unfold types_of. apply Forall_forall. intros i Hi.
  apply in_map_iff in Hi. destruct Hi as (q & <- & _). reflexivity.
Qed.

Lemma clicks_of_rank (data : EventLog) :
  Forall (fun i => action_type i = "click") (clicks_of data).
Proof. unfold clicks_of. apply Forall_forall. intros i Hi.
  apply in_map_iff in Hi. destruct Hi as (q & <- & _). reflexivity.
Qed.

Lemma navigates_of_rank (data : EventLog) :
  Forall (fun i => action_type i = "navigate") (navigates_of data).
Proof. unfold navigates_of. apply Forall_forall. intros i Hi.
  apply in_map_iff in Hi. destruct Hi as (q & <- & _). reflexivity.
Qed.

Lemma Forall_filter {A : Type} (P : A -> Prop) (p : A -> bool) (l : list A) :
  Forall P l -> Forall P (filter p l).
Proof.
  intros H. apply Forall_forall. intros a Ha. apply filter_In in Ha.
  rewrite Forall_forall in H. now apply H.
Qed.

(** The timestamp of a [type] interaction is the start of its sequence:
    the default of [type_of] is never taken. *)
Lemma types_of_timestamps (evs : list KeyEvent) :
  Forall (fun seq => seq_timestamp seq = Some (timestamp (type_of seq)))
    (_group_text_sequences evs).
Proof.
  eapply Forall_impl; [|apply group_timestamps].
  intros seq [t Ht]. simpl. now rewrite Ht.
Qed.

(** Before the sort the action types come in appending order. *)
Lemma unsorted_ranked (data : EventLog) (p : UIInteraction -> bool) :
  StronglySorted (fun a b => append_rank a <= append_rank b)
    (filter p (unsorted_interactions data)).
Proof.
  unfold unsorted_interactions. rewrite !filter_app.
  assert (Ht : Forall (fun i => append_rank i = 0) (filter p (types_of data))).
  { apply Forall_filter. eapply Forall_impl; [|apply types_of_rank].
    intros i Hi. unfold append_rank. simpl in Hi. now rewrite Hi. }
  assert (Hc : Forall (fun i => append_rank i = 1) (filter p (clicks_of data))).
  { apply Forall_filter. eapply Forall_impl; [|apply clicks_of_rank].
    intros i Hi. unfold append_rank. simpl in Hi. now rewrite Hi. }
  assert (Hn : Forall (fun i => append_rank i = 2) (filter p (navigates_of data))).
  { apply Forall_filter. eapply Forall_impl; [|apply navigates_of_rank].
    intros i Hi. unfold append_rank. simpl in Hi. now rewrite Hi. }
  rewrite Forall_forall in Ht, Hc, Hn.
  apply sorted_app; [| apply sorted_app |].
  - apply (sorted_constant append_rank 0). now apply Forall_forall.
  - apply (sorted_constant append_rank 1). now apply Forall_forall.
  - apply (sorted_constant append_rank 2). now apply Forall_forall.
  - intros a b Ha Hb. rewrite (Hc a Ha), (Hn b Hb). lia.
  - intros a b Ha Hb. rewrite (Ht a Ha).  lia.
Qed.

(** C1 (as stated) fails on a tie: with a typed character and a left
    click both stamped 1, the typed entry comes out before the click. *)
Lemma typed_text_precedes_click_on_tie :
  extract_enhanced_interactions tie_log
  = [ mkUIInteraction 1%Q "type" "Type 'a'" (Some "incomplete") None (Some "a") 0%Q;
      mkUIInteraction 1%Q "click" "Click at screen location" None
        (Some (10%Z, 20%Z)) None 0%Q ]
  /\ ~ (forall x y : UIInteraction,
          precedes_in (extract_enhanced_interactions tie_log) x y ->
          (timestamp x == timestamp y)%Q ->
          claimed_rank x <= claimed_rank y).
Proof.
  split; [reflexivity|].
  intros H.
  specialize (H (mkUIInteraction 1%Q "type" "Type 'a'" (Some "incomplete") None (Some "a") 0%Q)
                (mkUIInteraction 1%Q "click" "Click at screen location" None
                   (Some (10%Z, 20%Z)) None 0%Q)).
  assert (C : claimed_rank
                (mkUIInteraction 1%Q "type" "Type 'a'" (Some "incomplete") None (Some "a") 0%Q)
              <= claimed_rank
                   (mkUIInteraction 1%Q "click" "Click at screen location" None
                      (Some (10%Z, 20%Z)) None 0%Q)).
  { apply H; [|reflexivity]. exists [], [], []. reflexivity. }
  vm_compute in C. lia.
Qed.

(** C1 (amended): for every event log the returned list is sorted
    ascending by timestamp and holds exactly the built interactions;
    entries with an equal timestamp keep the order in which they were
    appended before the sort: typed text first, then mouse clicks, then
    navigation, each kind in its own input order. *)
Theorem extract_sorted_ties_in_append_order (data : EventLog) :
  let out := extract_enhanced_interactions data in
  StronglySorted by_timestamp out
  /\ Permutation out (types_of data ++ clicks_of data ++ navigates_of data)
  /\ (forall t : Q,
        filter (at_time t) out
        = filter (at_time t) (types_of data)
          ++ filter (at_time t) (clicks_of data)
          ++ filter (at_time t) (navigates_of data))
  /\ (forall x y : UIInteraction,
        precedes_in out x y -> (timestamp x == timestamp y)%Q ->
        append_rank x <= append_rank y)
  /\ Forall (fun i => action_type i = "type") (types_of data)
  /\ Forall (fun i => action_type i = "click") (clicks_of data)
  /\ Forall (fun i => action_type i = "navigate") (navigates_of data).
Proof.
  intros out. unfold out, extract_enhanced_interactions.
  split; [apply (sorted_by_sorted timestamp)|].
  split; [apply (sorted_by_perm timestamp)|].
  split.
  { intros t. unfold at_time.
    rewrite (sorted_by_stable timestamp t).
    unfold unsorted_interactions. now rewrite !filter_app. }
  split.
  { intros x y Hp Ht.
    apply (precedes_in_filter (at_time (timestamp y))) in Hp.
    - unfold at_time in Hp. rewrite (sorted_by_stable timestamp) in Hp.
      exact (precedes_in_sorted _ _ x y (unsorted_ranked data _) Hp).
    - unfold at_time. now apply Qeq_bool_iff.
    - unfold at_time. apply Qeq_bool_iff. reflexivity. }
  split; [apply types_of_rank|].
  split; [apply clicks_of_rank | apply navigates_of_rank].
Qed.

(** * Properties of the window builder *)

Lemma members_snoc (windows : list TimeWindow) (w : TimeWindow) :
  members (windows ++ [w]) = members windows ++ win_interactions w.
Proof.
  unfold members. rewrite map_app, concat_app. simpl. now rewrite app_nil_r.
Qed.

(** One step of the loop adds the interaction at the end of the members
    and keeps every window non-empty. *)
Lemma window_step_members (window_size : Q) (windows : list TimeWindow)
  (current_window : TimeWindow) (interaction : UIInteraction) :
  let (windows', current') :=
    window_step window_size (windows, current_window) interaction in
  members (windows' ++ [current'])
  = members (windows ++ [current_window]) ++ [interaction]
  /\ (Forall (fun w => win_interactions w <> []) (windows ++ [current_window]) ->
      Forall (fun w => win_interactions w <> []) (windows' ++ [current'])).
Proof.
  unfold window_step.
  destruct (Qleb _ window_size).
  - split.
    + rewrite !members_snoc. simpl. now rewrite app_assoc.
    + intros H. apply Forall_app in H. destruct H as [H _].
      apply Forall_app. split; [exact H|].
      constructor; [|constructor]. simpl. now destruct (win_interactions current_window).
  - split.
    + now rewrite (members_snoc (windows ++ [current_window])).
    + intros H. apply Forall_app. split; [exact H|].
      constructor; [|constructor]. simpl. discriminate.
Qed.

Lemma window_fold_members (window_size : Q) (rest : list UIInteraction)
  (windows : list TimeWindow) (current_window : TimeWindow) :
  let (windows', current') :=
    fold_left (window_step window_size) rest (windows, current_window) in
  members (windows' ++ [current'])
  = members (windows ++ [current_window]) ++ rest
  /\ (Forall (fun w => win_interactions w <> []) (windows ++ [current_window]) ->
      Forall (fun w => win_interactions w <> []) (windows' ++ [current'])).
Proof.
  revert windows current_window.
  induction rest as [|i rest IH]; intros windows current_window;
    cbn [fold_left].
  - now rewrite app_nil_r.
  - pose proof (window_step_members window_size windows current_window i) as Hs.
    destruct (window_step window_size (windows, current_window) i) as [w1 c1].
    specialize (IH w1 c1).
    destruct (fold_left (window_step window_size) rest (w1, c1)) as [w2 c2].
    destruct Hs as [Hm Hn]. destruct IH as [IHm IHn].
    split.
    + rewrite IHm, Hm. now rewrite <- app_assoc.
    + intros H. apply IHn, Hn, H.
Qed.

Lemma members_length (windows : list TimeWindow) :
  length (members windows)
  = list_sum (map (fun w => length (win_interactions w)) windows).
Proof.
  unfold members. induction windows as [|w ws IH]; simpl; [reflexivity|].
  now rewrite length_app, IH.
Qed.

Lemma members_In (windows : list TimeWindow) (x : UIInteraction) :
  In x (members windows)
  <-> exists w, In w windows /\ In x (win_interactions w).
Proof.
  unfold members. rewrite in_concat. split.
  - intros (l & Hl & Hx). apply in_map_iff in Hl.
    destruct Hl as (w & <- & Hw). now exists w.
  - intros (w & Hw & Hx). exists (win_interactions w).
    split; [now apply in_map | exact Hx].
Qed.

(** Every position of the laid-out list lies in some window. *)
Lemma members_slot (windows : list TimeWindow) (i : nat) :
  i < length (members windows) ->
  exists w j win,
    nth_error windows w = Some win
    /\ j < length (win_interactions win)
    /\ offset windows w + j = i
    /\ nth_error (win_interactions win) j = nth_error (members windows) i.
Proof.
  revert i. induction windows as [|a ws IH]; intros i Hi.
  - simpl in Hi. lia.
  - change (members (a :: ws)) with (win_interactions a ++ members ws) in *.
    rewrite length_app in Hi.
    destruct (Nat.lt_ge_cases i (length (win_interactions a))) as [Hlt | Hge].
    + exists 0, i, a. repeat split; try assumption.
      now rewrite nth_error_app1.
    + destruct (IH (i - length (win_interactions a))) as (w & j & win & Hw & Hj & Ho & Hn);
        [lia|].
      exists (S w), j, win. split; [exact Hw|]. split; [exact Hj|].
      split.
      * unfold offset in *. simpl. lia.
      * rewrite nth_error_app2 by exact Hge. exact Hn.
Qed.

(** Two slots at the same position of the laid-out list are one slot. *)
Lemma slot_unique (windows : list TimeWindow) (w j w' j' : nat) :
  slot windows w j -> slot windows w' j' ->
  offset windows w + j = offset windows w' + j' ->
  w = w' /\ j = j'.
Proof.
  revert w w'. induction windows as [|a ws IH]; intros w w' (win & Hw & Hj) (win' & Hw' & Hj') He.
  - destruct w; discriminate.
  - destruct w as [|w], w' as [|w']; simpl in Hw, Hw'.
    + unfold offset in He. simpl in He. split; [reflexivity | lia].
    + injection Hw as <-. unfold offset in He. simpl in He. lia.
    + injection Hw' as <-. unfold offset in He. simpl in He. lia.
    + destruct (IH w w') as [-> ->].
      * now exists win.
      * now exists win'.
      * unfold offset in *. simpl in He. lia.
      * now split.
Qed.

(** C4: the windows partition the input: laid end to end, their
    interaction lists are the input list, in order; no window is empty;
    every position of the input is one slot of one window, and of no
    other; an interaction is in the input exactly when it is in some
    window, and the window sizes add up to the input length.  The empty
    input gives no window, and interactions stamped 0, 1, 10 and 10.5
    with [window_size] 2 give the two windows [0..1] and [10..10.5]. *)
Theorem windows_partition_input (interactions : list UIInteraction)
  (window_size : Q) :
  let windows := _create_time_windows interactions window_size in
  members windows = interactions
  /\ Forall (fun w => win_interactions w <> []) windows
  /\ (forall i, i < length interactions ->
        exists w j win,
          nth_error windows w = Some win
          /\ nth_error (win_interactions win) j = nth_error interactions i
          /\ offset windows w + j = i
          /\ forall w' j', slot windows w' j' -> offset windows w' + j' = i ->
                           w' = w /\ j' = j)
  /\ (forall x, In x interactions
                <-> exists w, In w windows /\ In x (win_interactions w))
  /\ list_sum (map (fun w => length (win_interactions w)) windows)
     = length interactions
  /\ _create_time_windows [] window_size = []
  /\ _create_time_windows
       [click_at 0%Q; click_at 1%Q; click_at 10%Q; click_at (21 # 2)%Q] 2%Q
     = [ mkWindow 0%Q 1%Q [click_at 0%Q; click_at 1%Q];
         mkWindow 10%Q (21 # 2)%Q [click_at 10%Q; click_at (21 # 2)%Q] ].
Proof.
  intros windows.
  assert (Hm : members windows = interactions
               /\ Forall (fun w => win_interactions w <> []) windows).
  { unfold windows, _create_time_windows.
    destruct interactions as [|first rest]; [split; [reflexivity|constructor]|].
    pose proof (window_fold_members window_size rest []
                  (mkWindow (timestamp first) (timestamp first) [first])) as H.
    destruct (fold_left _ rest _) as [ws cur].
    destruct H as [H1 H2]. split.
    - rewrite H1. reflexivity.
    - apply H2. constructor; [simpl; discriminate | constructor]. }
  destruct Hm as [Hm Hn].
  split; [exact Hm|]. split; [exact Hn|].
  split.
  { intros i Hi. rewrite <- Hm in Hi.
    destruct (members_slot windows i Hi) as (w & j & win & Hw & Hj & Ho & Hx).
    exists w, j, win. split; [exact Hw|]. split; [now rewrite <- Hm|].
    split; [exact Ho|].
    intros w' j' Hs He.
    apply (slot_unique windows w' j' w j Hs); [now exists win | lia]. }
  split; [intros x; rewrite <- members_In; now rewrite Hm|].
  split; [rewrite <- members_length; now rewrite Hm|].
  split; reflexivity.
Qed.

(** * Properties of the gap analyzer *)

Lemma Qgtb_lt (a b : Q) : Qgtb a b = true -> (b < a)%Q.
Proof.
  unfold Qgtb. intros H. apply Qnot_le_lt. intros C.
  apply Qle_bool_iff in C. rewrite C in H. discriminate.
Qed.

(** C5: with no interaction the analyzer returns the single gap
    [{0, d, d}], whatever the threshold; for a session of 30 seconds this
    is [[{0, 30, 30}]]. *)
Theorem empty_session_is_one_gap (session_duration gap_threshold : Q) :
  _find_interaction_gaps [] session_duration gap_threshold
  = [mkGap 0%Q session_duration session_duration]
  /\ _find_interaction_gaps [] 30%Q default_gap_threshold
     = [mkGap 0%Q 30%Q 30%Q].
Proof. split; reflexivity. Qed.




(** * Properties of the completeness scorer *)

Module ScorerFacts.
Import Scorer.

Lemma any_in_false (words : list string) (text : string) :
  (forall w, In w words -> PyStr.contains w text = false) ->
  any_in words text = false.
Proof.
  intros H. unfold any_in.
  destruct (existsb _ words) eqn:E; [|reflexivity].
  apply existsb_exists in E. destruct E as (w & Hw & Hc).
  rewrite (H w Hw) in Hc. discriminate.
Qed.

Lemma any_in_true (words : list string) (text : string) :
  (exists w, In w words /\ PyStr.contains w text = true) ->
  any_in words text = true.
Proof. intros H. unfold any_in. now apply existsb_exists. Qed.

(** The score, read as the weighted sum of the six criteria. *)
Lemma score_sum (rpa_commands : string) (session_duration : Q)
  (interactions : list UIInteraction) :
  score (_assess_workflow_completeness rpa_commands session_duration interactions)
  = ((if login_of rpa_commands then 2 else 0)
     + (if completion_of rpa_commands then 2 else 0)
     + (if adequate_length_of rpa_commands interactions then 2 else 0)
     + (if murex_patterns_of rpa_commands then 2 else 0)
     + (if has_numbered_steps rpa_commands then 1 else 0)
     + (if has_descriptive_headers rpa_commands then 1 else 0))%Z.
Proof.
  unfold _assess_workflow_completeness, add_if. simpl.
  destruct (login_of _), (completion_of _), (adequate_length_of _ _),
    (murex_patterns_of _), (has_numbered_steps _), (has_descriptive_headers _);
    reflexivity.
Qed.

(** C6: two texts scored with the same interaction list, the first
    without any login keyword in its lower-cased form, the second with
    one, and with the five other criteria (completion, pattern
    threshold, adequate length, numbered steps, bold headers) equal,
    differ in score by exactly 2; [has_login] is false on the first and
    true on the second. *)
Theorem login_keyword_adds_two (text1 text2 : string) (session_duration : Q)
  (interactions : list UIInteraction) :
  let r1 := _assess_workflow_completeness text1 session_duration interactions in
  let r2 := _assess_workflow_completeness text2 session_duration interactions in
  (forall w, In w login_words -> PyStr.contains w (PyStr.lower text1) = false) ->
  (exists w, In w login_words /\ PyStr.contains w (PyStr.lower text2) = true) ->
  has_completion r1 = has_completion r2 ->
  has_murex_patterns r1 = has_murex_patterns r2 ->
  adequate_length r1 = adequate_length r2 ->
  has_numbered_steps text1 = has_numbered_steps text2 ->
  has_descriptive_headers text1 = has_descriptive_headers text2 ->
  score r2 = (score r1 + 2)%Z
  /\ has_login r1 = false /\ has_login r2 = true.
Proof.
  intros r1 r2 H1 H2 Hc Hm Ha Hn Hh.
  assert (L1 : login_of text1 = false) by now apply any_in_false.
  assert (L2 : login_of text2 = true) by now apply any_in_true.
  split; [|split; [exact L1 | exact L2]].
  unfold r1, r2. rewrite !score_sum.
  unfold r1, r2 in Hc, Hm, Ha. simpl in Hc, Hm, Ha.
  rewrite L1, L2, Hc, Hm, Ha, Hn, Hh. lia.
Qed.

Lemma login_keyword_adds_two_witness :
  score (_assess_workflow_completeness "1. Enter the Password" 15%Q [])
  = (score (_assess_workflow_completeness "1. Enter the pass code" 15%Q []) + 2)%Z.
Proof.
  refine (proj1 (login_keyword_adds_two "1. Enter the pass code"
                   "1. Enter the Password" 15%Q [] _ _ _ _ _ _ _)).
  - intros w Hw. simpl in Hw.
    destruct Hw as [<- | [<- | [<- | [<- | []]]]]; reflexivity.
  - exists "password". split; [simpl; tauto | reflexivity].
  - reflexivity.
  - reflexivity.
  - reflexivity.
  - reflexivity.
  - reflexivity.
Defined.

Lemma filter_length_le {A : Type} (p : A -> bool) (l : list A) :
  length (filter p l) <= length l.
Proof.
  induction l as [|a l IH]; simpl; [lia|]. destruct (p a); simpl; lia.
Qed.


(** X11: the score lies between 0 and 10 and the pattern count between
    0 and 8; the score is 10 exactly when all six criteria hold; and a
    structured format alone is worth 2. *)
Theorem score_range (rpa_commands : string) (session_duration : Q)
  (interactions : list UIInteraction) :
  let r := _assess_workflow_completeness rpa_commands session_duration interactions in
  (0 <= score r <= 10)%Z
  /\ (0 <= murex_pattern_count r <= 8)%Z
  /\ (score r = 10%Z <->
      has_login r = true /\ has_completion r = true
      /\ adequate_length r = true /\ has_murex_patterns r = true
      /\ has_numbered_steps rpa_commands = true
      /\ has_descriptive_headers rpa_commands = true)
  /\ (has_structured_format r = true -> (2 <= score r)%Z).
Proof.
  intros r. unfold r. rewrite score_sum. simpl.
  split; [|split; [|split]].
  - destruct (login_of _), (completion_of _), (adequate_length_of _ _),
      (murex_patterns_of _), (has_numbered_steps _), (has_descriptive_headers _);
      lia.
  - unfold pattern_count_of, count_in.
    pose proof (filter_length_le
                  (fun pattern => PyStr.contains pattern (PyStr.lower rpa_commands))
                  murex_patterns) as H.
    simpl length in H at 2. lia.
  - destruct (login_of _), (completion_of _), (adequate_length_of _ _),
      (murex_patterns_of _), (has_numbered_steps _), (has_descriptive_headers _);
      split; intros H; try lia; try discriminate; try tauto;
      now repeat split.
  - destruct (login_of _), (completion_of _), (adequate_length_of _ _),
      (murex_patterns_of _), (has_numbered_steps _), (has_descriptive_headers _);
      simpl; intros H; try discriminate; lia.
Qed.










Lemma filler_length (n : nat) : String.length (filler n) = n.
Proof. induction n as [|n IH]; simpl; [reflexivity | now rewrite IH]. Qed.

(** C8: [expected_min_length] is [max(400, 25 * len(interactions))] and
    [adequate_length] holds exactly when the text is at least that long:
    a text of exactly that length passes, a text one character shorter
    does not, and such texts exist for every interaction list. *)
Theorem adequate_length_boundary (rpa_commands : string) (session_duration : Q)
  (interactions : list UIInteraction) :
  let r := _assess_workflow_completeness rpa_commands session_duration interactions in
  let expected := Z.max 400 (25 * Z.of_nat (length interactions)) in
  expected_min_length r = expected
  /\ command_length r = PyStr.len rpa_commands
  /\ (adequate_length r = true <-> (expected <= PyStr.len rpa_commands)%Z)
  /\ (PyStr.len rpa_commands = expected -> adequate_length r = true)
  /\ (PyStr.len rpa_commands = (expected - 1)%Z -> adequate_length r = false)
  /\ adequate_length
       (_assess_workflow_completeness (filler (Z.to_nat expected))
          session_duration interactions) = true
  /\ adequate_length
       (_assess_workflow_completeness (filler (Z.to_nat expected - 1))
          session_duration interactions) = false.
Proof.
  intros r expected.
  assert (He : min_length_of interactions = expected).
  { unfold min_length_of, expected. f_equal. lia. }
  assert (Ha : forall text,
             adequate_length
               (_assess_workflow_completeness text session_duration interactions)
             = (expected <=? PyStr.len text)%Z).
  { intros text. simpl. unfold adequate_length_of. now rewrite He. }
  assert (Hpos : (400 <= expected)%Z) by (unfold expected; lia).
  split; [exact He|]. split; [reflexivity|].
  split; [unfold r; rewrite Ha; apply Z.leb_le|].
  split; [intros H; unfold r; rewrite Ha; apply Z.leb_le; lia|].
  split; [intros H; unfold r; rewrite Ha; apply Z.leb_gt; lia|].
  split; rewrite Ha; unfold PyStr.len; rewrite filler_length.
  - apply Z.leb_le. lia.
  - apply Z.leb_gt. lia.
Qed.

End ScorerFacts.

(** * Properties of the validator *)

Module ValidatorFacts.
Import Validator.

Lemma missing_both (m : list (string * json)) :
  lacks "mouse_interactions" m -> lacks "keyboard_events" m ->
  missing_of required_keys (JObj m) = Ok required_keys.
Proof.
  unfold lacks. intros Hm Hk. simpl. now rewrite Hm, Hk.
Qed.

Lemma below_limit (q : Q) :
  (q < inject_Z float_limit)%Q -> Qleb (inject_Z float_limit) q = false.
Proof.
  intros H. unfold Qleb. destruct (Qle_bool _ q) eqn:E; [|reflexivity].
  apply Qle_bool_iff in E. exfalso. now apply (Qlt_not_le _ _ H).
Qed.

(** With a well-shaped [session_info] the duration check returns one
    warning or nothing. *)
Lemma duration_well_shaped (m : list (string * json)) :
  session_info_shaped m ->
  exists tail,
    (let* session_info := get (JObj m) "session_info" (JObj []) in
     let* duration := get session_info "duration" (JNum 0) in
     duration_result duration) = Ok tail
    /\ Forall (fun r => severity r = "warning") tail.
Proof.
  unfold session_info_shaped. cbn [get bind get_default].
  destruct (lookup "session_info" m) as [[| | | | |info]|];
    cbn [get bind get_default]; try contradiction.
  - destruct (lookup "duration" info) as [[|b|q|s|l|o]|];
      cbn [get bind get_default lookup]; try contradiction.
    + intros _. unfold duration_result. cbn [eq_zero gt_num bind overflows].
      destruct b; cbn [negb].
      * eexists. split; [reflexivity|]. constructor.
      * eexists. split; [reflexivity|]. repeat constructor.
    + intros Hq. unfold duration_result. cbn [eq_zero gt_num bind overflows].
      rewrite (below_limit q Hq).
      destruct (Qeq_bool q 0).
      * eexists. split; [reflexivity|]. repeat constructor.
      * destruct (Qgtb q 600); eexists; (split; [reflexivity|]);
          repeat constructor.
    + intros _. eexists. split; [reflexivity|]. repeat constructor.
  - intros _. eexists. split; [reflexivity|]. repeat constructor.
Qed.

(** Outside that shape the duration check raises. *)
Lemma duration_ill_shaped (m : list (string * json)) :
  ~ session_info_shaped m ->
  exists e,
    (let* session_info := get (JObj m) "session_info" (JObj []) in
     let* duration := get session_info "duration" (JNum 0) in
     duration_result duration) = Raise e.
Proof.
  unfold session_info_shaped. cbn [get bind get_default].
  destruct (lookup "session_info" m) as [[| | | | |info]|];
    cbn [get bind get_default]; intros H;
    try (eexists; reflexivity); try (now elim H).
  destruct (lookup "duration" info) as [[|b|q|s|l|o]|];
    cbn [get bind get_default lookup];
    try (eexists; reflexivity); try (now elim H).
  unfold duration_result. cbn [eq_zero gt_num bind overflows].
  assert (Hq : (inject_Z float_limit <= q)%Q) by now apply Qnot_lt_le.
  assert (Hover : Qleb (inject_Z float_limit) q = true)
    by now apply Qle_bool_iff.
  assert (Hbig : (600 < q)%Q).
  { eapply Qlt_le_trans; [|exact Hq]. reflexivity. }
  assert (Hz : Qeq_bool q 0 = false).
  { destruct (Qeq_bool q 0) eqn:E; [|reflexivity].
    apply Qeq_bool_iff in E. rewrite E in Hbig. discriminate Hbig. }
  assert (Hg : Qgtb q 600 = true).
  { unfold Qgtb. destruct (Qle_bool q 600) eqn:E; [|reflexivity].
    apply Qle_bool_iff in E. exfalso. now apply (Qlt_not_le _ _ Hbig). }
  rewrite Hz, Hg, Hover. eexists. reflexivity.
Qed.

(** C9 (the code falls short of it): on an event log that lacks both
    keys the check must report the invalidity as data, but it raises
    when [duration] is not a number, here a string, which cannot be
    ordered against 600, and when it is an integer too large for the
    float that the "long session" message formats, here [2^1024];
    neither log gets its [error] results. *)
Theorem missing_keys_log_raises :
  lacks "mouse_interactions" [("session_info", JObj [("duration", JStr "long")])]
  /\ lacks "keyboard_events" [("session_info", JObj [("duration", JStr "long")])]
  /\ validate_json_file
       (Parsed (JObj [("session_info", JObj [("duration", JStr "long")])]))
       "session.json"
     = Raise TypeError
  /\ validate_json_file
       (Parsed (JObj [("session_info",
                       JObj [("duration", JNum (inject_Z (2 ^ 1024)))])]))
       "session.json"
     = Raise OverflowError.
Proof.
  split; [reflexivity|]. split; [reflexivity|]. split; [reflexivity|].
  vm_compute. reflexivity.
Qed.

(** Where the duration check returns, an event log without
    [mouse_interactions] and without [keyboard_events] gets the
    "missing keys" error, then the "no interactions" error, then only
    warnings: at least one result is an [error] and none is an [info]. *)
Lemma missing_keys_reported_as_errors (m : list (string * json))
  (json_path : string) :
  lacks "mouse_interactions" m -> lacks "keyboard_events" m ->
  session_info_shaped m ->
  exists results tail,
    validate_json_file (Parsed (JObj m)) json_path = Ok results
    /\ results
       = mkResult false
           (MissingRequiredKeys ["mouse_interactions"; "keyboard_events"]) "error"
           (Some "Ensure the interaction recording captured all required data")
         :: mkResult false NoInteractionsFound "error"
              (Some "Re-record the workflow with user interactions")
         :: tail
    /\ Forall (fun r => severity r = "warning") tail
    /\ (exists r, In r results /\ severity r = "error")
    /\ (forall r, In r results -> severity r <> "info").
Proof.
  intros Hm Hk Hs.
  destruct (duration_well_shaped m Hs) as (tail & Ht & Hw).
  unfold validate_json_file, validate_json_data.
  rewrite (missing_both m Hm Hk).
  unfold lacks in Hm, Hk.
  cbn [bind get len get_default]. rewrite Hm, Hk.
  cbn [bind get len get_default length Z.of_nat].
  cbn [bind get] in Ht.
  destruct (get (get_default (lookup "session_info" m) (JObj [])) "duration" (JNum 0))
    as [duration|ex]; cbn [bind] in Ht |- *; [|discriminate Ht].
  rewrite Ht. cbn [bind].
  eexists. exists tail.
  split; [reflexivity|]. split; [reflexivity|]. split; [exact Hw|]. split.
  - eexists. split; [left; reflexivity | reflexivity].
  - intros r [<- | [<- | Hr]]; try discriminate.
    rewrite Forall_forall in Hw. rewrite (Hw r Hr). discriminate.
Qed.

Lemma missing_keys_reported_as_errors_witness :
  let m := [("session_info", JObj [("duration", JNum 700%Q)])] in
  lacks "mouse_interactions" m /\ lacks "keyboard_events" m
  /\ session_info_shaped m
  /\ exists results,
      validate_json_file (Parsed (JObj m)) "session.json" = Ok results
      /\ (exists r, In r results /\ severity r = "error")
      /\ (forall r, In r results -> severity r <> "info").
Proof.
  cbv zeta.
  assert (Hm : lacks "mouse_interactions"
                 [("session_info", JObj [("duration", JNum 700%Q)])])
    by reflexivity.
  assert (Hk : lacks "keyboard_events"
                 [("session_info", JObj [("duration", JNum 700%Q)])])
    by reflexivity.
  assert (Hs : session_info_shaped
                 [("session_info", JObj [("duration", JNum 700%Q)])])
    by reflexivity.
  split; [exact Hm|]. split; [exact Hk|]. split; [exact Hs|].
  destruct (missing_keys_reported_as_errors _ "session.json" Hm Hk Hs)
    as (results & tail & Hr & _ & _ & He & Hi).
  exists results. split; [exact Hr|]. split; [exact He | exact Hi].
Defined.

(** On a log that lacks both keys the check raises exactly outside the
    shapes of [session_info_shaped]. *)
Lemma missing_keys_log_raises_iff (m : list (string * json))
  (json_path : string) :
  lacks "mouse_interactions" m -> lacks "keyboard_events" m ->
  ((exists e, validate_json_file (Parsed (JObj m)) json_path = Raise e)
   <-> ~ session_info_shaped m).
Proof.
  intros Hm Hk. split.
  - intros [e He] Hs.
    destruct (missing_keys_reported_as_errors m json_path Hm Hk Hs)
      as (results & _ & Hr & _).
    rewrite Hr in He. discriminate He.
  - intros Hs. destruct (duration_ill_shaped m Hs) as [e He].
    exists e. unfold validate_json_file, validate_json_data.
    rewrite (missing_both m Hm Hk).
    unfold lacks in Hm, Hk.
    cbn [bind get len get_default]. rewrite Hm, Hk.
    cbn [bind get len get_default length Z.of_nat].
    cbn [bind get] in He.
    destruct (get (get_default (lookup "session_info" m) (JObj [])) "duration" (JNum 0))
      as [duration|ex]; cbn [bind] in He |- *; [|exact He].
    now rewrite He.
Qed.

End ValidatorFacts.

(** * Further properties of the text-sequence grouper *)

(** A one-character key is none of the named keys: the press lands in
    the character branch. *)
Lemma group_step_char (st : GroupState) (c : ascii) (t : Q) :
  group_step st (key_press (String c "") t)
  = {| sequences := sequences st;
       current_text := current_text st ++ String c "";
       sequence_start :=
         if negb (PyStr.truthy (current_text st)) then Some t
         else sequence_start st |}.
Proof.
  unfold group_step, key_press, PyStr.in_list. simpl.
  repeat match goal with
         | |- context [Ascii.eqb c ?x] => destruct (Ascii.eqb c x)
         end; reflexivity.
Qed.

Lemma append_assoc (a b c : string) : ((a ++ b) ++ c)%string = (a ++ b ++ c)%string.
Proof. induction a as [|x a IH]; simpl; [reflexivity | now rewrite IH]. Qed.

Lemma append_empty_r (a : string) : (a ++ "")%string = a.
Proof. induction a as [|x a IH]; simpl; [reflexivity | now rewrite IH]. Qed.

Lemma fold_typed (keys : list (ascii * Q)) (st : GroupState) :
  PyStr.truthy (current_text st) = true ->
  fold_left group_step (typed keys) st
  = {| sequences := sequences st;
       current_text := current_text st ++ text_of keys;
       sequence_start := sequence_start st |}.
Proof.
  revert st. induction keys as [|k keys IH]; intros st Hst; simpl.
  - rewrite append_empty_r. now destruct st.
  - rewrite group_step_char, Hst. simpl. rewrite IH; simpl.
    + now rewrite append_assoc.
    + destruct (current_text st); [discriminate Hst | reflexivity].
Qed.

(** X1: character presses with no terminator come back as one sequence,
    the characters in typing order, stamped with the first press and
    marked [incomplete]; nothing comes back if they are all whitespace. *)
Theorem typed_text_is_one_incomplete_sequence (k : ascii * Q)
  (keys : list (ascii * Q)) :
  _group_text_sequences (typed (k :: keys))
  = if PyStr.truthy (PyStr.strip (text_of (k :: keys)))
    then [mkSeq (Some (snd k)) (text_of (k :: keys)) "incomplete"]
    else [].
Proof.
  unfold _group_text_sequences, group_run. simpl fold_left.
  rewrite group_step_char. simpl.
  rewrite fold_typed by reflexivity. reflexivity.
Qed.

Lemma group_step_tab (st : GroupState) (e : KeyEvent) :
  passes_guard e -> ev_key_name e = Some "Tab" ->
  group_step st e = terminate "tab" st.
Proof.
  intros Hg Hk. unfold group_step. rewrite (guard_true e Hg), Hk. reflexivity.
Qed.

(** X2: a guarded [Tab] press closes the pending text like [Enter] does,
    with [end_action] [tab]: the text is emitted when it is non-empty
    after trimming, and the accumulator and the start are reset. *)
Theorem tab_emits_and_resets (pre : list KeyEvent) (e : KeyEvent) :
  passes_guard e -> ev_key_name e = Some "Tab" ->
  let st := group_run pre in
  let st' := group_run (pre ++ [e]) in
  sequences st'
  = sequences st
    ++ (if PyStr.truthy (PyStr.strip (current_text st))
        then [mkSeq (sequence_start st) (current_text st) "tab"] else [])
  /\ current_text st' = ""
  /\ sequence_start st' = None.
Proof.
  intros Hg Hk st st'. unfold st'.
  rewrite group_run_snoc, (group_step_tab _ e Hg Hk). fold st.
  unfold terminate; simpl.
  destruct (PyStr.truthy _); [|rewrite app_nil_r]; now repeat split.
Qed.

Lemma tab_emits_and_resets_witness :
  sequences (group_run ([key_press "a" 1%Q] ++ [key_press "Tab" 2%Q]))
  = [mkSeq (Some 1%Q) "a" "tab"].
Proof.
  exact (proj1 (tab_emits_and_resets [key_press "a" 1%Q] (key_press "Tab" 2%Q)
                  (conj eq_refl eq_refl) eq_refl)).
Defined.

(** X3: a character followed by a guarded [BackSpace] leaves the pending
    text and the emitted sequences as they were. *)
Theorem backspace_undoes_character (pre : list KeyEvent) (c : ascii)
  (t : Q) (e : KeyEvent) :
  passes_guard e -> names_delete e ->
  let st := group_run pre in
  let st' := group_run (pre ++ [key_press (String c "") t; e]) in
  current_text st' = current_text st /\ sequences st' = sequences st.
Proof.
  intros Hg Hk st st'. unfold st', group_run.
  rewrite fold_left_app. simpl. fold (group_run pre). fold st.
  rewrite group_step_char, (group_step_delete _ e Hg Hk). simpl.
  assert (Ht : PyStr.truthy (current_text st ++ String c "") = true).
  { destruct (current_text st); reflexivity. }
  rewrite Ht. simpl. now rewrite drop_last_snoc.
Qed.

Lemma backspace_undoes_character_witness :
  current_text
    (group_run ([key_press "h" 1%Q]
                ++ [key_press "x" 2%Q; key_press "BackSpace" 3%Q]))
  = "h".
Proof.
  exact (proj1 (backspace_undoes_character [key_press "h" 1%Q] "x"%char 2%Q
                  (key_press "BackSpace" 3%Q)
                  (conj eq_refl eq_refl) (or_intror eq_refl))).
Defined.

Lemma closed_step (P : TextSequence -> Prop) (st : GroupState) (e : KeyEvent) :
  (forall start text a, (a = "enter" \/ a = "tab") -> nonblank text ->
                        P (mkSeq start text a)) ->
  (forall t, P (mkSeq (Some t) "" "delete")) ->
  Forall P (sequences st) -> Forall P (sequences (group_step st e)).
Proof.
  intros Hclose Hdel H. unfold group_step, terminate.
  destruct (get_eq _ _ && truthy_get _); [|exact H].
  destruct (PyStr.in_list _ ["Return"; "Enter"]).
  { simpl. destruct (PyStr.truthy _) eqn:E; [|exact H].
    apply Forall_app. split; [exact H|]. constructor; [|constructor].
    apply Hclose; [now left | exact E]. }
  destruct (String.eqb _ "Tab").
  { simpl. destruct (PyStr.truthy _) eqn:E; [|exact H].
    apply Forall_app. split; [exact H|]. constructor; [|constructor].
    apply Hclose; [now right | exact E]. }
  destruct (PyStr.in_list _ ["Delete"; "BackSpace"]).
  { destruct (PyStr.truthy (current_text st)); simpl; [exact H|].
    apply Forall_app. split; [exact H|]. constructor; [|constructor].
    apply Hdel. }
  destruct (PyStr.truthy _ && _); exact H.
Qed.

Lemma closed_run (keyboard_events : list KeyEvent) :
  Forall closed_entry (sequences (group_run keyboard_events)).
Proof.
  unfold group_run.
  assert (G : forall st, Forall closed_entry (sequences st) ->
                         Forall closed_entry
                           (sequences (fold_left group_step keyboard_events st))).
  { induction keyboard_events as [|e evs IH]; intros st Hst; [exact Hst|].
    simpl. apply IH. apply closed_step; [| |exact Hst].
    - intros start text a Ha Hn. right. now split.
    - intros t. left. now split. }
  apply G. constructor.
Qed.

(** X4: the returned list is made of closed entries, each either a
    [delete] with empty text or an [enter]/[tab] whose text is non-empty
    after trimming, followed by at most one [incomplete] entry, which
    is non-empty after trimming too and comes last. *)
Theorem grouper_output_shape (keyboard_events : list KeyEvent) :
  exists closed pending,
    _group_text_sequences keyboard_events = closed ++ pending
    /\ Forall closed_entry closed
    /\ (pending = []
        \/ exists start text,
             pending = [mkSeq start text "incomplete"] /\ nonblank text).
Proof.
  exists (sequences (group_run keyboard_events)).
  unfold _group_text_sequences, group_finish.
  destruct (PyStr.truthy _) eqn:E.
  - eexists. split; [reflexivity|]. split; [apply closed_run|].
    right. eexists. eexists. split; [reflexivity | exact E].
  - exists []. rewrite app_nil_r. split; [reflexivity|].
    split; [apply closed_run | now left].
Qed.

(** * Further properties of the interaction extractor *)

Lemma filter_perm {A : Type} (p : A -> bool) (l l' : list A) :
  Permutation l l' -> Permutation (filter p l) (filter p l').
Proof.
  induction 1 as [| x l l' _ IH | x y l | l l' l'' _ IH1 _ IH2]; simpl.
  - constructor.
  - destruct (p x); [now constructor | exact IH].
  - destruct (p x), (p y); try reflexivity. apply perm_swap.
  - now transitivity (filter p l').
Qed.

Lemma filter_all {A : Type} (p : A -> bool) (l : list A) :
  Forall (fun a => p a = true) l -> filter p l = l.
Proof.
  induction 1 as [|a l Ha _ IH]; simpl; [reflexivity|]. now rewrite Ha, IH.
Qed.

Lemma filter_none {A : Type} (p : A -> bool) (l : list A) :
  Forall (fun a => p a = false) l -> filter p l = [].
Proof.
  induction 1 as [|a l Ha _ IH]; simpl; [reflexivity|]. now rewrite Ha.
Qed.

Lemma kind_filter (kind : string) (l : list UIInteraction) (k : string) :
  Forall (fun i => action_type i = k) l ->
  filter (fun i => String.eqb (action_type i) kind) l
  = if String.eqb k kind then l else [].
Proof.
  intros H. destruct (String.eqb k kind) eqn:E.
  - apply filter_all. eapply Forall_impl; [|exact H].
    intros i Hi. simpl in Hi. now rewrite Hi.
  - apply filter_none. eapply Forall_impl; [|exact H].
    intros i Hi. simpl in Hi. now rewrite Hi.
Qed.

(** X5: the extractor returns one [type] entry per sequence that is
    non-empty after trimming, one [click] per left mouse press and one
    [navigate] per application switch, and nothing else: other mouse
    events and the empty-text [delete] sequences leave no entry.  A
    [type] entry carries its text and no coordinates, a [click] its
    coordinates and no text, a [navigate] neither. *)
Theorem extract_counts_and_shapes (data : EventLog) :
  let out := extract_enhanced_interactions data in
  let count kind :=
    length (filter (fun i => String.eqb (action_type i) kind) out) in
  count "type"
  = length (filter (fun seq => PyStr.truthy (PyStr.strip (seq_text seq)))
              (_group_text_sequences (get_default (keyboard_events data) [])))
  /\ count "click"
     = length (filter is_left_press (get_default (mouse_interactions data) []))
  /\ count "navigate" = length (get_default (app_switches data) [])
  /\ length out = count "type" + count "click" + count "navigate"
  /\ Forall (fun i =>
               (action_type i = "type" /\ coordinates i = None
                /\ exists text, text_content i = Some text /\ nonblank text)
               \/ (action_type i = "click" /\ text_content i = None
                   /\ exists xy, coordinates i = Some xy)
               \/ (action_type i = "navigate" /\ text_content i = None
                   /\ coordinates i = None))
       out.
Proof.
  intros out count.
  assert (Hp : Permutation out (unsorted_interactions data))
    by apply (sorted_by_perm timestamp).
  assert (Hc : forall kind,
             count kind
             = length (filter (fun i => String.eqb (action_type i) kind)
                         (unsorted_interactions data))).
  { intros kind. unfold count. apply Permutation_length. now apply filter_perm. }
  assert (Hk : forall kind,
             filter (fun i => String.eqb (action_type i) kind)
               (unsorted_interactions data)
             = (if String.eqb "type" kind then types_of data else [])
               ++ (if String.eqb "click" kind then clicks_of data else [])
               ++ (if String.eqb "navigate" kind then navigates_of data else [])).
  { intros kind. unfold unsorted_interactions. rewrite !filter_app.
    rewrite (kind_filter kind _ "type" (types_of_rank data)).
    rewrite (kind_filter kind _ "click" (clicks_of_rank data)).
    now rewrite (kind_filter kind _ "navigate" (navigates_of_rank data)). }
  assert (Ht : count "type" = length (types_of data)).
  { rewrite Hc, Hk. simpl. now rewrite app_nil_r. }
  assert (Hcl : count "click" = length (clicks_of data)).
  { rewrite Hc, Hk. simpl. now rewrite app_nil_r. }
  assert (Hn : count "navigate" = length (navigates_of data)).
  { rewrite Hc, Hk. reflexivity. }
  split; [rewrite Ht; unfold types_of; now rewrite length_map|].
  split; [rewrite Hcl; unfold clicks_of; now rewrite length_map|].
  split; [rewrite Hn; unfold navigates_of; now rewrite length_map|].
  split.
  { rewrite Ht, Hcl, Hn, (Permutation_length Hp).
    unfold unsorted_interactions. rewrite !length_app. lia. }
  eapply Permutation_Forall; [symmetry; exact Hp|].
  unfold unsorted_interactions. apply Forall_app. split; [|apply Forall_app; split].
  - unfold types_of. apply Forall_forall. intros i Hi.
    apply in_map_iff in Hi. destruct Hi as (seq & <- & Hs).
    apply filter_In in Hs. destruct Hs as [_ Hs].
    left. split; [reflexivity|]. split; [reflexivity|].
    exists (seq_text seq). now split.
  - unfold clicks_of. apply Forall_forall. intros i Hi.
    apply in_map_iff in Hi. destruct Hi as (ev & <- & _).
    right; left. split; [reflexivity|]. split; [reflexivity|].
    eexists. reflexivity.
  - unfold navigates_of. apply Forall_forall. intros i Hi.
    apply in_map_iff in Hi. destruct Hi as (sw & <- & _).
    right; right. now repeat split.
Qed.

(** * Further properties of the window builder *)

Lemma last_cons {A : Type} (rest : list A) (b first : A) :
  last (b :: rest) first = last rest b.
Proof.
  revert b first. induction rest as [|c rest IH]; intros b first; [reflexivity|].
  change (last (b :: c :: rest) first) with (last (c :: rest) first).
  rewrite IH. symmetry. apply IH.
Qed.

Section MachineSubtractionFacts.

Variable minus : Q -> Q -> Q.

Lemma close_knit_snoc (window_size : Q) (first : UIInteraction)
  (rest : list UIInteraction) (i : UIInteraction) :
  close_knit_by minus window_size (first :: rest) ->
  Qleb (minus (timestamp i) (timestamp (last rest first))) window_size = true ->
  close_knit_by minus window_size ((first :: rest) ++ [i]).
Proof.
  revert first. induction rest as [|b rest IH]; intros first Hk Hi.
  - simpl in *. now split.
  - destruct Hk as [Hab Hk]. split; [exact Hab|].
    apply (IH b Hk). now rewrite <- (last_cons rest b first).
Qed.

Lemma set_apart_replace (window_size : Q) (l : list TimeWindow)
  (w w' : TimeWindow) :
  set_apart_by minus window_size (l ++ [w]) -> win_start w' = win_start w ->
  set_apart_by minus window_size (l ++ [w']).
Proof.
  intros H Hs. induction l as [|a l IH]; [exact I|].
  destruct l as [|b l].
  - simpl in *. destruct H as [H _]. split; [now rewrite Hs | exact I].
  - destruct H as [Hab H]. split; [exact Hab|]. apply IH, H.
Qed.

Lemma set_apart_snoc (window_size : Q) (l : list TimeWindow)
  (w1 w2 : TimeWindow) :
  set_apart_by minus window_size (l ++ [w1]) ->
  Qleb (minus (win_start w2) (win_end w1)) window_size = false ->
  set_apart_by minus window_size ((l ++ [w1]) ++ [w2]).
Proof.
  intros H Hs. induction l as [|a l IH]; [simpl; now split|].
  destruct l as [|b l].
  - simpl in *. destruct H as [H _]. now repeat split.
  - destruct H as [Hab H]. split; [exact Hab|]. apply IH, H.
Qed.

(** The state kept by the loop of [_create_time_windows]. *)
Lemma window_fold_spacing (window_size : Q) (rest : list UIInteraction)
  (windows : list TimeWindow) (current_window : TimeWindow) :
  Forall spans_members (windows ++ [current_window]) ->
  Forall (fun w => close_knit_by minus window_size (win_interactions w))
    (windows ++ [current_window]) ->
  set_apart_by minus window_size (windows ++ [current_window]) ->
  let (windows', current') :=
    fold_left (window_step_by minus window_size) rest (windows, current_window) in
  Forall spans_members (windows' ++ [current'])
  /\ Forall (fun w => close_knit_by minus window_size (win_interactions w))
       (windows' ++ [current'])
  /\ set_apart_by minus window_size (windows' ++ [current']).
Proof.
  revert windows current_window.
  induction rest as [|i rest IH]; intros windows cur Hs Hk Ha; cbn [fold_left].
  - now repeat split.
  - unfold window_step_by at 2.
    apply Forall_app in Hs. destruct Hs as [Hs Hc].
    apply Forall_app in Hk. destruct Hk as [Hk Hkc].
    apply Forall_inv in Hc. apply Forall_inv in Hkc.
    destruct Hc as (first & more & Hm & Hst & Hen).
    destruct (Qleb (minus (timestamp i) (win_end cur)) window_size) eqn:E.
    + apply IH.
      * apply Forall_app. split; [exact Hs|]. constructor; [|constructor].
        exists first, (more ++ [i]). simpl. rewrite Hm.
        split; [reflexivity|]. split; [exact Hst|]. now rewrite last_last.
      * apply Forall_app. split; [exact Hk|]. constructor; [|constructor].
        simpl. rewrite Hm. apply close_knit_snoc.
        -- now rewrite <- Hm.
        -- now rewrite <- Hen.
      * now apply (set_apart_replace window_size windows cur).
    + apply IH.
      * apply Forall_app. split.
        -- apply Forall_app. split; [exact Hs|]. constructor; [|constructor].
           now exists first, more.
        -- constructor; [|constructor]. now exists i, [].
      * apply Forall_app. split.
        -- apply Forall_app. split; [exact Hk|]. now constructor.
        -- constructor; [exact I | constructor].
      * now apply set_apart_snoc.
Qed.

Lemma windows_by_spacing (interactions : list UIInteraction) (window_size : Q) :
  let windows := create_time_windows_by minus interactions window_size in
  Forall spans_members windows
  /\ Forall (fun w => close_knit_by minus window_size (win_interactions w)) windows
  /\ set_apart_by minus window_size windows.
Proof.
  unfold create_time_windows_by.
  destruct interactions as [|first rest]; [now repeat constructor|].
  pose proof (window_fold_spacing window_size rest []
                (mkWindow (timestamp first) (timestamp first) [first])) as H.
  destruct (fold_left _ rest _) as [ws cur].
  apply H.
  - constructor; [|constructor]. now exists first, [].
  - constructor; [exact I | constructor].
  - exact I.
Qed.

(** When rounding never lifts a difference over [window_size], windows
    set apart by the computed difference are set apart by the exact
    one. *)
Lemma set_apart_exact (window_size : Q) (windows : list TimeWindow) :
  (forall a b, (a - b <= window_size)%Q -> (minus a b <= window_size)%Q) ->
  set_apart_by minus window_size windows -> set_apart window_size windows.
Proof.
  intros Hmono. induction windows as [|w1 ws IH]; [exact (fun H => H)|].
  destruct ws as [|w2 ws]; [exact (fun H => H)|].
  intros [H12 H]. split; [|now apply IH].
  unfold Qleb in *. destruct (Qle_bool (win_start w2 - win_end w1) window_size) eqn:E;
    [|reflexivity].
  apply Qle_bool_iff in E. apply Hmono in E. apply Qle_bool_iff in E.
  congruence.
Qed.

End MachineSubtractionFacts.

Lemma windows_by_exact (interactions : list UIInteraction) (window_size : Q) :
  create_time_windows_by Qminus interactions window_size
  = _create_time_windows interactions window_size.
Proof. reflexivity. Qed.

(** X6: whatever rounding the subtraction of line 204 applies, every
    window starts at the timestamp of its first interaction and ends at
    that of its last; inside a window the difference the code computes
    between an interaction and the one before is at most [window_size];
    between the start of a window and the end of the one before it is
    above [window_size], and then so is the exact difference, provided
    rounding never lifts a difference over [window_size] (it does not
    when [window_size] is a float).  With the exact subtraction the
    function is [_create_time_windows]. *)
Theorem windows_span_and_spacing (minus : Q -> Q -> Q)
  (interactions : list UIInteraction) (window_size : Q) :
  let windows := create_time_windows_by minus interactions window_size in
  Forall spans_members windows
  /\ Forall (fun w => close_knit_by minus window_size (win_interactions w)) windows
  /\ set_apart_by minus window_size windows
  /\ ((forall a b, (a - b <= window_size)%Q -> (minus a b <= window_size)%Q) ->
      set_apart window_size windows)
  /\ create_time_windows_by Qminus interactions window_size
     = _create_time_windows interactions window_size.
Proof.
  intros windows.
  destruct (windows_by_spacing minus interactions window_size) as (H1 & H2 & H3).
  split; [exact H1|]. split; [exact H2|]. split; [exact H3|].
  split; [|apply windows_by_exact].
  intros Hmono. now apply (set_apart_exact minus).
Qed.

Lemma window_fold_close (window_size : Q) (rest : list UIInteraction)
  (first : UIInteraction) (more : list UIInteraction) (start : Q) :
  close_knit window_size (last more first :: rest) ->
  fold_left (window_step window_size) rest
    ([], mkWindow start (timestamp (last more first)) (first :: more))
  = ([], mkWindow start (timestamp (last (more ++ rest) first))
           (first :: more ++ rest)).
Proof.
  revert more. induction rest as [|i rest IH]; intros more Hk.
  - now rewrite app_nil_r.
  - destruct Hk as [Hi Hk]. cbn [fold_left]. unfold window_step at 2.
    cbn [win_end]. rewrite Hi. cbn [win_start win_interactions].
    specialize (IH (more ++ [i])). rewrite last_last in IH.
    change ((first :: more) ++ [i]) with (first :: more ++ [i]).
    rewrite (IH Hk). now rewrite <- !app_assoc.
Qed.

(** X7: when every interaction comes at most [window_size] after the
    one before, the result is the single window that holds them all,
    from the first timestamp to the last. *)
Theorem close_knit_is_one_window (first : UIInteraction)
  (rest : list UIInteraction) (window_size : Q) :
  close_knit window_size (first :: rest) ->
  _create_time_windows (first :: rest) window_size
  = [mkWindow (timestamp first) (timestamp (last rest first)) (first :: rest)].
Proof.
  intros Hk. unfold _create_time_windows.
  pose proof (window_fold_close window_size rest first [] (timestamp first) Hk) as H.
  cbn [last app] in H. rewrite H. reflexivity.
Qed.

Lemma close_knit_is_one_window_witness :
  _create_time_windows [click_at 0%Q; click_at 1%Q; click_at 3%Q] 2%Q
  = [mkWindow 0%Q 3%Q [click_at 0%Q; click_at 1%Q; click_at 3%Q]].
Proof.
  apply (close_knit_is_one_window (click_at 0%Q) [click_at 1%Q; click_at 3%Q] 2%Q).
  simpl. repeat split; reflexivity.
Defined.

(** * Further properties of the gap analyzer *)

Lemma sorted_keys {A : Type} (key : A -> Q) (l : list A) :
  StronglySorted Qle (map key (sorted_by key l)).
Proof.
  pose proof (sorted_by_sorted key l) as H.
  induction H as [|a l' Hl IH Ha]; simpl; constructor; [exact IH|].
  apply Forall_forall. intros q Hq. apply in_map_iff in Hq.
  destruct Hq as (b & <- & Hb). rewrite Forall_forall in Ha. now apply Ha.
Qed.

Lemma sorted_nth (l : list Q) (i j : nat) :
  StronglySorted Qle l -> i <= j -> j < length l ->
  (nth i l 0 <= nth j l 0)%Q.
Proof.
  intros H. revert i j. induction H as [|a l Hl IH Ha]; intros i j Hij Hj.
  - simpl in Hj. lia.
  - destruct j as [|j].
    + assert (i = 0) by lia. subst i. apply Qle_refl.
    + simpl in Hj. destruct i as [|i].
      * simpl. rewrite Forall_forall in Ha. apply Ha. apply nth_In. lia.
      * simpl. apply IH; lia.
Qed.

Lemma sorted_by_length {A : Type} (key : A -> Q) (l : list A) :
  length (sorted_by key l) = length l.
Proof. apply Permutation_length, sorted_by_perm. Qed.

Lemma flat_map_sorted {A : Type} (R : A -> A -> Prop) (f : nat -> list A)
  (len a : nat) :
  (forall i, StronglySorted R (f i)) ->
  (forall i j x y, a <= i -> i < j -> j < a + len ->
                   In x (f i) -> In y (f j) -> R x y) ->
  StronglySorted R (flat_map f (seq a len)).
Proof.
  intros Hf Hc. revert a Hc. induction len as [|len IH]; intros a Hc; simpl.
  - constructor.
  - apply sorted_app; [apply Hf | |].
    + apply IH. intros i j x y Hi Hij Hj. apply Hc; lia.
    + intros x y Hx Hy. apply in_flat_map in Hy. destruct Hy as (j & Hj & Hy).
      apply in_seq in Hj.
      apply (Hc a j); [lia | lia | lia | exact Hx | exact Hy].
Qed.

Lemma flat_map_length_le {A : Type} (f : nat -> list A) (l : list nat) :
  (forall i, length (f i) <= 1) -> length (flat_map f l) <= length l.
Proof.
  intros Hf. induction l as [|i l IH]; simpl; [lia|].
  rewrite length_app. specialize (Hf i). lia.
Qed.

Lemma gaps_by_exact (interactions : list UIInteraction)
  (session_duration gap_threshold : Q) :
  find_interaction_gaps_by Qminus interactions session_duration gap_threshold
  = _find_interaction_gaps interactions session_duration gap_threshold.
Proof. reflexivity. Qed.

Lemma Qminus_positive (a b : Q) : (0 < a - b)%Q -> (b < a)%Q.
Proof.
  intros H. apply (Qplus_lt_l _ _ (- b)). rewrite Qplus_opp_r. exact H.
Qed.

(** X8: on a non-empty interaction list with a threshold that is not
    negative, every gap has a positive extent, [start < end], and stores
    a duration above the threshold.  This holds whatever rounding the
    subtractions of lines 151 and 162 apply, provided a computed
    difference is positive only when the exact one is (true of the
    exact and of the float subtraction).  With the exact subtraction
    the function is [_find_interaction_gaps]. *)
Theorem gaps_have_positive_extent (minus : Q -> Q -> Q)
  (interactions : list UIInteraction) (session_duration gap_threshold : Q) :
  (forall a b, (0 < minus a b)%Q -> (b < a)%Q) ->
  interactions <> [] -> (0 <= gap_threshold)%Q ->
  Forall (fun g => (gap_start g < gap_end g)%Q
                   /\ (gap_threshold < gap_duration g)%Q)
    (find_interaction_gaps_by minus interactions session_duration gap_threshold)
  /\ find_interaction_gaps_by Qminus interactions session_duration gap_threshold
     = _find_interaction_gaps interactions session_duration gap_threshold.
Proof.
  intros Hpos Hne Hth. split; [|apply gaps_by_exact].
  unfold find_interaction_gaps_by.
  destruct interactions as [|i rest]; [now elim Hne|].
  apply Forall_app. split; [|apply Forall_app; split].
  - destruct (Qgtb _ gap_threshold) eqn:E; constructor; [|constructor].
    apply Qgtb_lt in E. simpl. split; [|exact E].
    eapply Qle_lt_trans; [exact Hth | exact E].
  - apply Forall_forall. intros g Hg. apply in_flat_map in Hg.
    destruct Hg as (k & _ & Hg).
    destruct (Qgtb _ gap_threshold) eqn:E; [|contradiction].
    destruct Hg as [<- | []]. apply Qgtb_lt in E. simpl. split; [|exact E].
    apply Hpos. eapply Qle_lt_trans; [exact Hth | exact E].
  - destruct (Qgtb _ gap_threshold) eqn:E; constructor; [|constructor].
    apply Qgtb_lt in E. simpl. split; [|exact E].
    apply Hpos. eapply Qle_lt_trans; [exact Hth | exact E].
Qed.

Lemma gaps_have_positive_extent_witness :
  Forall (fun g => (gap_start g < gap_end g)%Q /\ (5 < gap_duration g)%Q)
    (find_interaction_gaps_by Qminus [click_at 20%Q; click_at 6%Q] 30%Q 5%Q)
  /\ find_interaction_gaps_by Qminus [click_at 20%Q; click_at 6%Q] 30%Q 5%Q
     = [mkGap 0%Q 6%Q 6%Q; mkGap 6%Q 20%Q (20 - 6)%Q; mkGap 20%Q 30%Q (30 - 20)%Q].
Proof.
  split; [|reflexivity].
  apply (gaps_have_positive_extent Qminus [click_at 20%Q; click_at 6%Q] 30%Q 5%Q).
  - exact Qminus_positive.
  - discriminate.
  - discriminate.
Defined.

(** X9: at most one gap is reported per interaction, plus one. *)
Theorem gap_count_bound (interactions : list UIInteraction)
  (session_duration gap_threshold : Q) :
  length (_find_interaction_gaps interactions session_duration gap_threshold)
  <= length interactions + 1.
Proof.
  unfold _find_interaction_gaps.
  destruct interactions as [|i rest]; [simpl; lia|].
  pose proof (sorted_by_length timestamp (i :: rest)) as Hl.
  set (srt := sorted_by timestamp (i :: rest)) in *.
  rewrite !length_app.
  match goal with
  | |- _ + (length (flat_map ?f ?l) + _) <= _ =>
      assert (Hb : length (flat_map f l) <= length l)
  end.
  { apply flat_map_length_le. intros k.
    destruct (Qgtb _ gap_threshold); simpl; lia. }
  rewrite length_seq in Hb.
  repeat match goal with
         | |- context [length (if ?b then _ else _)] => destruct b
         end; cbn [length] in *; lia.
Qed.

(** X10: the gaps of a non-empty interaction list come in time order
    and do not overlap: each gap ends no later than the next begins,
    whatever the order of the input. *)
Theorem gaps_in_time_order (interactions : list UIInteraction)
  (session_duration gap_threshold : Q) :
  interactions <> [] ->
  StronglySorted gap_before
    (_find_interaction_gaps interactions session_duration gap_threshold).
Proof.
  intros Hne. unfold _find_interaction_gaps.
  destruct interactions as [|i0 rest]; [now elim Hne|].
  set (l := i0 :: rest).
  set (s := map timestamp (sorted_by timestamp l)).
  assert (Hs : StronglySorted Qle s) by apply sorted_keys.
  assert (Hn : length s = length (sorted_by timestamp l))
    by (unfold s; apply length_map).
  assert (Hpos : 0 < length s).
  { rewrite Hn, sorted_by_length. simpl. lia. }
  rewrite <- Hn.
  apply sorted_app; [| apply sorted_app |].
  - destruct (Qgtb _ gap_threshold); repeat constructor.
  - apply flat_map_sorted.
    + intros k. destruct (Qgtb _ gap_threshold); repeat constructor.
    + intros a b x y _ Hab Hb Hx Hy.
      destruct (Qgtb (nth (a + 1) s 0%Q - nth a s 0%Q) gap_threshold);
        [|contradiction].
      destruct (Qgtb (nth (b + 1) s 0%Q - nth b s 0%Q) gap_threshold);
        [|contradiction].
      destruct Hx as [<- | []]. destruct Hy as [<- | []].
      unfold gap_before. simpl.
      apply sorted_nth; [exact Hs | lia | lia].
  - destruct (Qgtb _ gap_threshold); repeat constructor.
  - intros x y Hx Hy. apply in_flat_map in Hx. destruct Hx as (a & Ha & Hx).
    apply in_seq in Ha.
    destruct (Qgtb (nth (a + 1) s 0%Q - nth a s 0%Q) gap_threshold);
      [|contradiction].
    destruct Hx as [<- | []].
    destruct (Qgtb _ gap_threshold); [|contradiction].
    destruct Hy as [<- | []]. unfold gap_before. simpl.
    apply sorted_nth; [exact Hs | lia | lia].
  - intros x y Hx Hy.
    destruct (Qgtb (nth 0 s 0%Q) gap_threshold); [|contradiction].
    destruct Hx as [<- | []]. unfold gap_before. simpl.
    apply in_app_or in Hy. destruct Hy as [Hy | Hy].
    + apply in_flat_map in Hy. destruct Hy as (a & Ha & Hy).
      apply in_seq in Ha.
      destruct (Qgtb (nth (a + 1) s 0%Q - nth a s 0%Q) gap_threshold);
        [|contradiction].
      destruct Hy as [<- | []]. simpl.
      apply sorted_nth; [exact Hs | lia | lia].
    + destruct (Qgtb _ gap_threshold); [|contradiction].
      destruct Hy as [<- | []]. simpl.
      apply sorted_nth; [exact Hs | lia | lia].
Qed.

Lemma gaps_in_time_order_witness :
  StronglySorted gap_before
    (_find_interaction_gaps [click_at 20%Q; click_at 6%Q] 30%Q 5%Q).
Proof.
  apply (gaps_in_time_order [click_at 20%Q; click_at 6%Q] 30%Q 5%Q).
  discriminate.
Defined.

(** * Properties of the other checks of the validator *)

Module ChecksFacts.
Import Validator Checks.

Lemma too_large_iff (size : Z) (limit : Z) :
  Qgtb (size_mb_of size) (inject_Z limit) = true
  <-> (limit * 1048576 < size)%Z.
Proof.
  unfold Qgtb, size_mb_of. rewrite negb_true_iff.
  destruct (Qle_bool _ _) eqn:E.
  - apply Qle_bool_iff in E. unfold Qle in E. simpl in E.
    split; [discriminate | lia].
  - split; [intros _ | reflexivity].
    destruct (Z_lt_le_dec (limit * 1048576) size) as [H | H]; [exact H|].
    exfalso. assert (C : Qle_bool (inject_Z size / 1048576) (inject_Z limit) = true).
    { apply Qle_bool_iff. unfold Qle. simpl. lia. }
    rewrite C in E. discriminate.
Qed.

(** X13: the video check passes without an [error] exactly when the
    file exists, is at most 100 MB (104857600 bytes) and its name ends,
    case-insensitively, in [.mp4], [.mov] or [.avi]; a missing file
    gives the single "not found" error. *)
Theorem video_check_errors (video : option Z) (video_path : string) :
  let results := validate_video_file video video_path in
  ((forall r, In r results -> f_severity r <> "error")
   <-> exists size,
       video = Some size /\ (size <= 104857600)%Z
       /\ existsb (endswith (PyStr.lower video_path)) [".mp4"; ".mov"; ".avi"]
          = true)
  /\ (video = None ->
      results
      = [mkFinding false (VideoFileNotFound video_path) "error"
           (Some "Check the file path and ensure the video file exists")]).
Proof.
  intros results. split; [|intros ->; reflexivity].
  unfold results, validate_video_file. destruct video as [size|].
  - pose proof (too_large_iff size 100) as H100.
    change (inject_Z 100) with 100%Q in H100.
    destruct (Qgtb (size_mb_of size) 100) eqn:E.
    + split.
      * intros H. exfalso. apply (H _ (or_introl eq_refl)). reflexivity.
      * intros (sz & Hs & Hle & _). injection Hs as <-.
        assert (100 * 1048576 < size)%Z by (apply H100; reflexivity). lia.
    + assert (Hle : (size <= 104857600)%Z).
      { destruct (Z_lt_le_dec 104857600 size) as [C | C]; [|exact C].
        assert (false = true) by (apply H100; lia).
        discriminate. }
      destruct (existsb _ [".mp4"; ".mov"; ".avi"]) eqn:X; simpl negb; cbv iota.
      * split.
        -- intros _. now exists size.
        -- intros _ r Hr. rewrite app_nil_r in Hr.
           destruct (Qgtb (size_mb_of size) 50);
             destruct Hr as [<- | []]; discriminate.
      * split.
        -- intros H. exfalso.
           apply (H (mkFinding false UnsupportedVideoFormat "error"
                       (Some "Use MP4, MOV, or AVI format for best compatibility"))).
           ++ apply in_or_app. right. now left.
           ++ reflexivity.
        -- intros (sz & _ & _ & C). discriminate C.
  - split.
    + intros H. exfalso. apply (H _ (or_introl eq_refl)). reflexivity.
    + intros (sz & C & _). discriminate C.
Qed.

Lemma strip_truthy (s : string) :
  PyStr.truthy (PyStr.strip s) = true -> PyStr.truthy s = true.
Proof. destruct s; [discriminate | reflexivity]. Qed.

(** X14: the output check reports an [error] exactly when the text is
    empty after trimming, and then nothing else; otherwise it returns at
    most five results, none of them an [error], the last one being the
    "generated successfully" [info] with the length of the text. *)
Theorem output_check_shape (rpa_commands : string) :
  let results := validate_workflow_output rpa_commands in
  (PyStr.truthy (PyStr.strip rpa_commands) = false ->
   results = [mkFinding false NoCommandsGenerated "error"
                (Some "Check API response and input quality")])
  /\ (PyStr.truthy (PyStr.strip rpa_commands) = true ->
      (forall r, In r results -> f_severity r <> "error")
      /\ (exists front,
             results
             = front ++ [mkFinding true (CommandsGenerated (PyStr.len rpa_commands))
                           "info" None])
      /\ length results <= 5).
Proof.
  intros results. unfold results, validate_workflow_output. split.
  - intros H. rewrite H. simpl. now rewrite orb_true_r.
  - intros H. rewrite H, (strip_truthy _ H). cbn [negb orb].
    set (last_result := mkFinding true (CommandsGenerated (PyStr.len rpa_commands))
                          "info" None).
    split; [|split].
    + intros r Hr.
      repeat (apply in_app_or in Hr; destruct Hr as [Hr | Hr]);
        repeat match type of Hr with
               | In _ (if ?b then _ else _) => destruct b
               end;
        repeat (destruct Hr as [<- | Hr]; [discriminate|]); destruct Hr.
    + eexists. rewrite !app_assoc. reflexivity.
    + rewrite !length_app.
      repeat match goal with
             | |- context [length (if ?b then _ else _)] => destruct b
             end; simpl; lia.
Qed.

(** X15: the synchronisation check never raises and never blocks:
    whatever the video file and the JSON file are (missing, unparsable,
    of any shape), it returns at most one result, and that result is
    valid and is not an [error]. *)
Theorem synchronization_never_blocks (video : option Z) (file : FileState) :
  let results := validate_time_synchronization video file in
  length results <= 1
  /\ forall r, In r results -> f_is_valid r = true /\ f_severity r <> "error".
Proof.
  intros results. unfold results, validate_time_synchronization.
  destruct (synchronization_body video file) as [rs | e] eqn:E.
  - unfold synchronization_body in E.
    destruct file as [| |data]; try discriminate E.
    destruct (bind _ _) as [d|ex]; [|discriminate E].
    destruct video as [size|]; [|discriminate E].
    destruct (gt_num d 0) as [[|]|ex]; try discriminate E.
    + destruct (overflows d); [discriminate E|].
      destruct (Qgtb _ 30); injection E as <-; simpl;
        (split; [lia|]); intros r [<- | []]; split; [reflexivity | discriminate | reflexivity | discriminate].
    + injection E as <-. simpl. split; [lia | intros r []].
  - simpl. split; [lia|]. intros r [<- | []]. split; [reflexivity | discriminate].
Qed.

Lemma count_zero_iff (l : list Finding) :
  length (filter (fun r => String.eqb (f_severity r) "error") l) = 0
  <-> existsb (fun r => String.eqb (f_severity r) "error") l = false.
Proof.
  induction l as [|r l IH]; simpl; [tauto|].
  destruct (String.eqb (f_severity r) "error"); simpl; [|exact IH].
  split; discriminate.
Qed.

Lemma existsb_concat (l : list (string * list Finding)) :
  existsb (fun r => String.eqb (f_severity r) "error") (concat (map snd l))
  = has_errors l.
Proof.
  unfold has_errors. induction l as [|c l IH]; simpl; [reflexivity|].
  now rewrite existsb_app, IH.
Qed.

Lemma has_errors_summary (validation_results : list (string * list Finding)) :
  has_errors validation_results
  = negb (print_validation_summary validation_results).
Proof.
  unfold print_validation_summary, count_severity.
  rewrite <- existsb_concat.
  destruct (existsb _ (concat _)) eqn:E; symmetry.
  - apply negb_true_iff, Z.eqb_neq. intros C.
    assert (C' : length (filter (fun r => String.eqb (f_severity r) "error")
                           (concat (map snd validation_results))) = 0) by lia.
    apply count_zero_iff in C'. congruence.
  - apply negb_false_iff, Z.eqb_eq. apply count_zero_iff in E. lia.
Qed.

(** X16: the gate at the head of [process_complete_workflow] and the
    summary agree: processing stops exactly when
    [print_validation_summary] would return [False]. *)
Theorem gate_agrees_with_summary
  (validation_results : list (string * list Finding)) :
  has_errors validation_results
  = negb (print_validation_summary validation_results).
Proof. apply has_errors_summary. Qed.

Lemma json_check_equation (m : list (string * json)) (tail : list ValidationResult) :
  (let* session_info := get (JObj m) "session_info" (JObj []) in
   let* duration := get session_info "duration" (JNum 0) in
   duration_result duration) = Ok tail ->
  forall missing_keys mouse_interactions keyboard_events mouse_count keyboard_count,
    missing_of required_keys (JObj m) = Ok missing_keys ->
    get_default (lookup "mouse_interactions" m) (JArr []) = mouse_interactions ->
    get_default (lookup "keyboard_events" m) (JArr []) = keyboard_events ->
    len mouse_interactions = Ok mouse_count ->
    len keyboard_events = Ok keyboard_count ->
    validate_json_data (JObj m)
    = Ok (missing_keys_result missing_keys
          ++ [count_result mouse_count keyboard_count] ++ tail).
Proof.
  intros Ht missing_keys mi ke mc kc Hmiss Hmi Hke Hmc Hkc.
  unfold validate_json_data. rewrite Hmiss.
  cbn [bind get]. rewrite Hmi, Hmc. cbn [bind]. rewrite Hke, Hkc. cbn [bind].
  cbn [bind get] in Ht.
  destruct (get (get_default (lookup "session_info" m) (JObj [])) "duration" (JNum 0))
    as [duration|ex]; cbn [bind] in Ht |- *; [|discriminate Ht].
  now rewrite Ht.
Qed.

(** X17: for an event log whose [mouse_interactions] and
    [keyboard_events] are both lists (with a well-shaped
    [session_info]) the JSON check returns without raising; it reports
    an [error] exactly when both lists are empty, and an [info] exactly
    when there are at least three mouse events. *)
Theorem json_check_with_events (m : list (string * json)) (ms ks : list json)
  (json_path : string) :
  lookup "mouse_interactions" m = Some (JArr ms) ->
  lookup "keyboard_events" m = Some (JArr ks) ->
  session_info_shaped m ->
  exists results,
    validate_json_file (Parsed (JObj m)) json_path = Ok results
    /\ ((exists r, In r results /\ severity r = "error") <-> ms = [] /\ ks = [])
    /\ ((exists r, In r results /\ severity r = "info") <-> 3 <= length ms).
Proof.
  intros Hm Hk Hs.
  destruct (ValidatorFacts.duration_well_shaped m Hs) as (tail & Ht & Hw).
  assert (Hmiss : missing_of required_keys (JObj m) = Ok []).
  { simpl. now rewrite Hm, Hk. }
  pose proof (json_check_equation m tail Ht [] (JArr ms) (JArr ks)
                (Z.of_nat (length ms)) (Z.of_nat (length ks)) Hmiss) as Heq.
  rewrite Hm, Hk in Heq. specialize (Heq eq_refl eq_refl eq_refl eq_refl).
  eexists. split; [exact Heq|].
  cbn [missing_keys_result app].
  rewrite Forall_forall in Hw.
  assert (Htail : forall r s, In r tail -> s <> "warning" -> severity r <> s).
  { intros r s Hr Hne C. rewrite (Hw r Hr) in C. now apply Hne. }
  unfold count_result.
  destruct (Z.of_nat (length ms) =? 0)%Z eqn:E0.
  - apply Z.eqb_eq in E0.
    destruct (Z.of_nat (length ks) =? 0)%Z eqn:K0; cbn [andb].
    + apply Z.eqb_eq in K0. split; split.
      * intros _. split; [destruct ms | destruct ks]; simpl in *; try reflexivity; lia.
      * intros _. eexists. split; [left; reflexivity | reflexivity].
      * intros (r & [<- | Hr] & Hsev); [discriminate Hsev|].
        exfalso. now apply (Htail r "info" Hr).
      * lia.
    + apply Z.eqb_neq in K0.
      assert (Hlt : (Z.of_nat (length ms) <? 3)%Z = true) by (apply Z.ltb_lt; lia).
      rewrite Hlt. split; split.
      * intros (r & [<- | Hr] & Hsev); [discriminate Hsev|].
        exfalso. now apply (Htail r "error" Hr).
      * intros [_ ->]. simpl in K0. lia.
      * intros (r & [<- | Hr] & Hsev); [discriminate Hsev|].
        exfalso. now apply (Htail r "info" Hr).
      * lia.
  - apply Z.eqb_neq in E0. cbn [andb].
    destruct (Z.of_nat (length ms) <? 3)%Z eqn:L3.
    + apply Z.ltb_lt in L3. split; split.
      * intros (r & [<- | Hr] & Hsev); [discriminate Hsev|].
        exfalso. now apply (Htail r "error" Hr).
      * intros [-> _]. simpl in E0. lia.
      * intros (r & [<- | Hr] & Hsev); [discriminate Hsev|].
        exfalso. now apply (Htail r "info" Hr).
      * lia.
    + apply Z.ltb_ge in L3. split; split.
      * intros (r & [<- | Hr] & Hsev); [discriminate Hsev|].
        exfalso. now apply (Htail r "error" Hr).
      * intros [-> _]. simpl in E0. lia.
      * lia.
      * intros _. eexists. split; [left; reflexivity | reflexivity].
Qed.

Lemma json_check_with_events_witness :
  let m := [("mouse_interactions", JArr [JNull; JNull; JNull]);
            ("keyboard_events", JArr [])] in
  exists results,
    validate_json_file (Parsed (JObj m)) "log.json" = Ok results
    /\ (exists r, In r results /\ severity r = "info").
Proof.
  cbv zeta.
  destruct (json_check_with_events
              [("mouse_interactions", JArr [JNull; JNull; JNull]);
               ("keyboard_events", JArr [])]
              [JNull; JNull; JNull] [] "log.json" eq_refl eq_refl I)
    as (results & Hr & _ & Hi).
  exists results. split; [exact Hr|]. apply Hi. simpl. lia.
Defined.

(** X18: an event log without [mouse_interactions] and without
    [keyboard_events] stops [process_complete_workflow] at its gate,
    whatever the video file is and whether or not commands are passed:
    the complete validation returns, [has_errors] is set and the
    summary reports "not ready". *)
Theorem missing_keys_stop_processing (video : option Z) (video_path : string)
  (m : list (string * json)) (json_path : string)
  (rpa_commands : option string) :
  lacks "mouse_interactions" m -> lacks "keyboard_events" m ->
  session_info_shaped m ->
  exists validation_results,
    validate_complete_workflow video video_path (Parsed (JObj m)) json_path
      rpa_commands = Ok validation_results
    /\ has_errors validation_results = true
    /\ print_validation_summary validation_results = false.
Proof.
  intros Hm Hk Hs.
  destruct (ValidatorFacts.duration_well_shaped m Hs) as (tail & Ht & Hw).
  pose proof (json_check_equation m tail Ht required_keys (JArr []) (JArr [])
                0%Z 0%Z (ValidatorFacts.missing_both m Hm Hk)) as Heq.
  unfold lacks in Hm, Hk. rewrite Hm, Hk in Heq.
  specialize (Heq eq_refl eq_refl eq_refl eq_refl).
  unfold validate_complete_workflow, validate_json_file. rewrite Heq.
  cbn [bind].
  eexists. split; [reflexivity|].
  assert (He : forall rest,
             has_errors
               ([("video", validate_video_file video video_path);
                 ("json",
                  map of_result
                    (missing_keys_result required_keys
                     ++ [count_result 0 0] ++ tail));
                 ("synchronization",
                  validate_time_synchronization video (Parsed (JObj m)))]
                ++ rest) = true).
  { intros rest. unfold has_errors. cbn [app existsb snd].
    apply orb_true_iff. right. apply orb_true_iff. left. reflexivity. }
  assert (Hgoal : forall vr, has_errors vr = true ->
                             has_errors vr = true
                             /\ print_validation_summary vr = false).
  { intros vr H. split; [exact H|].
    rewrite has_errors_summary in H. now apply negb_true_iff in H. }
  apply Hgoal.
  destruct rpa_commands as [commands|].
  - destruct (PyStr.truthy commands); [apply He|].
    rewrite <- (app_nil_r [_; _; _]). apply He.
  - rewrite <- (app_nil_r [_; _; _]). apply He.
Qed.

Lemma missing_keys_stop_processing_witness :
  exists validation_results,
    validate_complete_workflow (Some 1000%Z) "session.mp4"
      (Parsed (JObj [("session_info", JObj [])])) "session.json" None
    = Ok validation_results
    /\ has_errors validation_results = true
    /\ print_validation_summary validation_results = false.
Proof.
  exact (missing_keys_stop_processing (Some 1000%Z) "session.mp4"
           [("session_info", JObj [])] "session.json" None eq_refl eq_refl I).
Defined.

End ChecksFacts.

(** * Properties of the session span *)

Lemma py_min_spec (rest : list Q) (first : Q) :
  In (py_min first rest) (first :: rest)
  /\ forall t, In t (first :: rest) -> (py_min first rest <= t)%Q.
Proof.
  revert first. induction rest as [|x rest IH]; intros first.
  - simpl. split; [now left|]. intros t [<- | []]. apply Qle_refl.
  - unfold py_min. cbn [fold_left]. fold (py_min (if Qgtb first x then x else first) rest).
    destruct (IH (if Qgtb first x then x else first)) as [Hin Hle].
    assert (Hm : ((if Qgtb first x then x else first) <= first)%Q
                 /\ ((if Qgtb first x then x else first) <= x)%Q).
    { destruct (Qgtb first x) eqn:E.
      - split; [apply Qlt_le_weak; now apply Qgtb_lt | apply Qle_refl].
      - split; [apply Qle_refl|]. unfold Qgtb in E.
        apply negb_false_iff in E. now apply Qle_bool_iff. }
    split.
    + destruct Hin as [Hin | Hin].
      * rewrite <- Hin. destruct (Qgtb first x); [right; now left | now left].
      * right. now right.
    + intros t [<- | [<- | Ht]].
      * eapply Qle_trans; [apply Hle; now left | apply Hm].
      * eapply Qle_trans; [apply Hle; now left | apply Hm].
      * apply Hle. now right.
Qed.

Lemma py_max_spec (rest : list Q) (first : Q) :
  In (py_max first rest) (first :: rest)
  /\ forall t, In t (first :: rest) -> (t <= py_max first rest)%Q.
Proof.
  revert first. induction rest as [|x rest IH]; intros first.
  - simpl. split; [now left|]. intros t [<- | []]. apply Qle_refl.
  - unfold py_max. cbn [fold_left]. fold (py_max (if Qgtb x first then x else first) rest).
    destruct (IH (if Qgtb x first then x else first)) as [Hin Hle].
    assert (Hm : (first <= (if Qgtb x first then x else first))%Q
                 /\ (x <= (if Qgtb x first then x else first))%Q).
    { destruct (Qgtb x first) eqn:E.
      - split; [apply Qlt_le_weak; now apply Qgtb_lt | apply Qle_refl].
      - split; [apply Qle_refl|]. unfold Qgtb in E.
        apply negb_false_iff in E. now apply Qle_bool_iff. }
    split.
    + destruct Hin as [Hin | Hin].
      * rewrite <- Hin. destruct (Qgtb x first); [right; now left | now left].
      * right. now right.
    + intros t [<- | [<- | Ht]].
      * eapply Qle_trans; [apply Hm | apply Hle; now left].
      * eapply Qle_trans; [apply Hm | apply Hle; now left].
      * apply Hle. now right.
Qed.

(** X19: [analyze_complete_video_duration] returns the declared
    duration (0 when [session_info] or its [duration] is missing); with
    no timestamp anywhere in the log the span is [0 .. duration];
    otherwise the first and last interaction are timestamps of the log
    and every timestamp of the log lies between them. *)
Theorem session_span (session_info : option SessionInfo) (data : EventLog) :
  let result := analyze_complete_video_duration session_info data in
  let session_duration := fst (fst result) in
  let first_interaction := snd (fst result) in
  let last_interaction := snd result in
  session_duration
  = match session_info with
    | Some (mkSessionInfo (Some d)) => d
    | _ => 0%Q
    end
  /\ (all_timestamps_of data = [] ->
      first_interaction = 0%Q /\ last_interaction = session_duration)
  /\ (all_timestamps_of data <> [] ->
      In first_interaction (all_timestamps_of data)
      /\ In last_interaction (all_timestamps_of data)
      /\ forall t, In t (all_timestamps_of data) ->
                   (first_interaction <= t <= last_interaction)%Q).
Proof.
  unfold analyze_complete_video_duration.
  destruct (all_timestamps_of data) as [|first rest]; cbn [fst snd].
  - split; [now destruct session_info as [[[d|]]|]|].
    split; [now split | intros C; now elim C].
  - split; [now destruct session_info as [[[d|]]|]|].
    split; [discriminate|]. intros _.
    destruct (py_min_spec rest first) as [Hmin Hle].
    destruct (py_max_spec rest first) as [Hmax Hge].
    split; [exact Hmin|]. split; [exact Hmax|].
    intros t Ht. split; [now apply Hle | now apply Hge].
Qed.

(** * Properties of the recorded key events *)

Lemma unmapped_code (key_code : nat) :
  64 <= key_code -> map_get key_code key_map = None.
Proof.
  intros H. unfold key_map. cbn [map_get].
  repeat match goal with
         | |- context [(key_code =? ?k)%nat] =>
             destruct (Nat.eqb_spec key_code k); [lia|]
         end.
  reflexivity.
Qed.

(** X20: what a key of the macOS recorder does once its event reaches
    the grouper.  [Return] and [Enter] (codes 36, 52) close the text as
    [enter], [Tab] (48) as [tab], and [Delete] (51) edits or reports:
    their names are alphanumeric, so the recorder flags them as
    characters.  The space bar (49), the keys named by a word and the
    unflagged punctuation keys ([dropped_codes]), and every code from
    64 on leave the grouper state untouched.  Every other key adds its
    one character to the pending text. *)
Theorem recorded_key_effect (key_code : nat) (t : Q) (st : GroupState) :
  let e := key_down_event key_code t in
  (code_in key_code [36; 52] = true -> group_step st e = terminate "enter" st)
  /\ (key_code = 48 -> group_step st e = terminate "tab" st)
  /\ (key_code = 51 -> passes_guard e /\ names_delete e)
  /\ (code_in key_code dropped_codes = true \/ 64 <= key_code ->
      group_step st e = st)
  /\ (key_code < 64 ->
      code_in key_code (control_codes ++ dropped_codes) = false ->
      exists c,
        _key_code_to_name key_code = String c ""
        /\ current_text (group_step st e) = (current_text st ++ String c "")%string
        /\ sequences (group_step st e) = sequences st).
Proof.
  intros e. unfold e. clear e.
  split; [|split; [|split; [|split]]].
  - do 64 (destruct key_code as [|key_code]; [try discriminate; intros _; reflexivity|]).
    discriminate.
  - intros ->. reflexivity.
  - intros ->. split; [split; reflexivity | left; reflexivity].
  - intros [H | H].
    + do 64 (destruct key_code as [|key_code];
             [try discriminate H; reflexivity|]).
      discriminate H.
    + unfold key_down_event, _key_code_to_name.
      rewrite (unmapped_code key_code H). cbn [get_default].
      unfold group_step. cbn [ev_type ev_is_character ev_key_name ev_timestamp
                                get_eq truthy_get truthy get_default].
      destruct (_ && _); reflexivity.
  - intros Hlt Hc.
    do 64 (destruct key_code as [|key_code];
           [first [ discriminate Hc
                  | eexists; split; [reflexivity|]; split; reflexivity ]|]).
    lia.
Qed.

Lemma recorded_key_effect_witness :
  group_step (group_run [key_down_event 4 1%Q; key_down_event 34 2%Q])
    (key_down_event 49 3%Q)
  = group_run [key_down_event 4 1%Q; key_down_event 34 2%Q]
  /\ current_text (group_run [key_down_event 4 1%Q; key_down_event 34 2%Q]) = "hi".
Proof.
  split; [|reflexivity].
  exact (proj1 (proj2 (proj2 (proj2
           (recorded_key_effect 49 3%Q
              (group_run [key_down_event 4 1%Q; key_down_event 34 2%Q])))))
           (or_introl eq_refl)).
Defined.

(** * Properties of the interaction summary *)









(** * Properties of the acceptance gate *)

Module AcceptanceFacts.
Import Scorer Acceptance.

(** X23: a workflow is rejected only if at least two of the four main
    criteria (login, completion, adequate length, Murex patterns) fail,
    so the rejection message always names at least two missing
    elements; a workflow is accepted only if at least two of the four
    hold; and one that meets three of the four is accepted whatever its
    format. *)
Theorem rejection_names_two_missing (rpa_commands : string)
  (session_duration : Q) (interactions : list UIInteraction) :
  let r := _assess_workflow_completeness rpa_commands session_duration interactions in
  (rejects r = true -> 2 <= length (missing_report r))
  /\ (rejects r = false ->
      (2 <= Z.b2z (has_login r) + Z.b2z (has_completion r)
            + Z.b2z (adequate_length r) + Z.b2z (has_murex_patterns r))%Z)
  /\ ((has_login r && has_completion r && adequate_length r
       || has_login r && has_completion r && has_murex_patterns r
       || has_login r && adequate_length r && has_murex_patterns r
       || has_completion r && adequate_length r && has_murex_patterns r) = true ->
      rejects r = false).
Proof.
  intros r. unfold rejects, missing_report, r.
  rewrite ScorerFacts.score_sum. simpl.
  destruct (login_of _), (completion_of _), (adequate_length_of _ _),
    (murex_patterns_of _), (has_numbered_steps _), (has_descriptive_headers _);
    simpl; repeat split; intros H; try discriminate H; try lia; tauto.
Qed.

End AcceptanceFacts.

(** * Properties of the interaction timeline *)

Lemma entries_app (l1 l2 : list TimelineLine) :
  entries_of (l1 ++ l2) = entries_of l1 ++ entries_of l2.
Proof. unfold entries_of. apply flat_map_app. Qed.

Lemma headers_app (l1 l2 : list TimelineLine) :
  headers_of (l1 ++ l2) = headers_of l1 ++ headers_of l2.
Proof. unfold headers_of. apply flat_map_app. Qed.

Lemma entries_of_interactions (l : list UIInteraction) :
  entries_of (flat_map entry_lines l)
  = map (fun i => (timestamp i, description i)) l
  /\ headers_of (flat_map entry_lines l) = [].
Proof.
  induction l as [|i l [IH1 IH2]]; [now split|].
  cbn [flat_map]. rewrite entries_app, headers_app, IH1, IH2.
  unfold entry_lines.
  destruct (coordinates i), (text_content i) as [tx|];
    try destruct (PyStr.truthy tx); now split.
Qed.

Lemma window_lines_entries (windows : list TimeWindow) (i : nat) :
  entries_of (window_lines i windows)
  = map (fun x => (timestamp x, description x)) (members windows)
  /\ headers_of (window_lines i windows)
     = map (fun k => Z.of_nat (k + 1)) (seq i (length windows)).
Proof.
  revert i. induction windows as [|w ws IH]; intros i; [now split|].
  destruct (IH (S i)) as [IH1 IH2].
  destruct (entries_of_interactions (win_interactions w)) as [E1 E2].
  cbn [window_lines]. rewrite !entries_app, !headers_app, E1, E2, IH1, IH2.
  change (members (w :: ws)) with (win_interactions w ++ members ws).
  rewrite map_app. now split.
Qed.

Lemma windows_members (interactions : list UIInteraction) (window_size : Q) :
  members (_create_time_windows interactions window_size) = interactions.
Proof.
  unfold _create_time_windows.
  destruct interactions as [|first rest]; [reflexivity|].
  pose proof (window_fold_members window_size rest []
                (mkWindow (timestamp first) (timestamp first) [first])) as H.
  destruct (fold_left _ rest _) as [ws cur].
  destruct H as [H _]. now rewrite H.
Qed.

(** X24: the timeline lists every interaction exactly once, in input
    order, with its timestamp and description, and numbers the windows
    1, 2, ... up to the number of windows built. *)
Theorem timeline_lists_each_interaction (interactions : list UIInteraction) :
  let lines := create_interaction_timeline interactions in
  entries_of lines = map (fun i => (timestamp i, description i)) interactions
  /\ headers_of lines
     = map (fun k => Z.of_nat (k + 1))
         (seq 0 (length (_create_time_windows interactions 2%Q))).
Proof.
  intros lines. unfold lines, create_interaction_timeline.
  rewrite entries_app, headers_app.
  destruct (window_lines_entries (_create_time_windows interactions 2%Q) 0)
    as [H1 H2].
  rewrite H1, H2, windows_members. now split.
Qed.
